(** * Arbitrage scanner: a shallow embedding of the scanning, retry,
    circuit-breaker and execution code of src/src/arbitrage/index.js,
    src/src/utils/errors.js and src/src/exchanges/index.js.

    JavaScript numbers that carry prices are modelled as rationals [Q]
    (exact arithmetic); millisecond times and delays as [Z]; a JS [Map]
    keyed by strings as stdpp's [gmap string _]; thrown values as the
    [JsError] record below (the code only throws [Error] objects, and the
    exchange client, a ccxt instance, rejects with [Error] objects). *)

From Stdlib Require Import QArith ZArith Ascii String List Lqa Sorting.Sorted.
From stdpp Require Import gmap strings list fin_maps pretty.
Import ListNotations.

Close Scope Q_scope.
Open Scope string_scope.
Open Scope list_scope.

(* ------------------------------------------------------------------ *)
(** ** Errors (src/src/utils/errors.js, lines 6-48) *)

(** The classes of errors.js; [NativeError] is any built-in [Error]
    (TypeError, the errors of the exchange client, ...). *)
Inductive ErrClass :=
| ArbitrageErrorC
| ExchangeErrorC
| DatabaseErrorC
| ValidationErrorC
| NetworkErrorC
| NativeError (name : string).

Record JsError := mkError {
  err_class : ErrClass;
  err_code : string;
  err_message : string
}.

(** [error instanceof ArbitrageError]: every class of errors.js extends it. *)
Definition is_arbitrage_error (e : JsError) : bool :=
  match err_class e with NativeError _ => false | _ => true end.

(** The result of an awaited call: a value, or a thrown error. *)
Inductive result (A : Type) :=
| Ok (v : A)
| Throw (e : JsError).
Arguments Ok {A} v.
Arguments Throw {A} e.

(** [s.includes(sub)] *)
Definition includes (s sub : string) : bool :=
  match String.index 0 sub s with Some _ => true | None => false end.

(** [enhanceError] (errors.js, lines 193-235); the context merge is not
    modelled (it only touches the [context] field). *)
Definition enhanceError (e : JsError) : JsError :=
  if is_arbitrage_error e then e
  else if includes (err_message e) "ECONNREFUSED" || includes (err_message e) "ENOTFOUND" then
    mkError NetworkErrorC "NETWORK_CONNECTION_FAILED" ("Network connection failed: " ++ err_message e)%string
  else if includes (err_message e) "timeout" then
    mkError NetworkErrorC "NETWORK_TIMEOUT" ("Request timeout: " ++ err_message e)%string
  else if includes (err_message e) "Invalid API key" || includes (err_message e) "authentication" then
    mkError ExchangeErrorC "EXCHANGE_AUTH_FAILED" ("Authentication failed: " ++ err_message e)%string
  else mkError ArbitrageErrorC "UNKNOWN_ERROR" (err_message e).

(* ------------------------------------------------------------------ *)
(** ** withRetry (errors.js, lines 124-168) *)

(** What one run of [withRetry] does, in order: the [k]-th call of
    [operation] (0-based) and the [setTimeout] delays between calls. *)
Inductive RetryEvent :=
| Invoke (attempt : nat)
| Sleep (delay : Z).

Section WithRetry.
Context {A : Type}.
Variable maxRetries : nat.
Variables baseDelay maxDelay backoffFactor : Z.
Variable retryCondition : JsError -> nat -> bool.
(** [operation attempt]: the outcome of the call made at [attempt]. *)
Variable operation : nat -> result A.

(** [Math.min(baseDelay * Math.pow(backoffFactor, attempt), maxDelay)] *)
Definition retry_delay (attempt : nat) : Z :=
  Z.min (baseDelay * backoffFactor ^ Z.of_nat attempt) maxDelay.

(** The loop body from [attempt] on, [remaining = maxRetries - attempt]
    iterations left after this one.  [attempt === maxRetries] is
    [remaining = 0]; as in the source, [retryCondition] is then not
    consulted.  The [throw lastError] after the loop is unreachable for
    [maxRetries >= 0] and has no counterpart here. *)
Fixpoint retry_from (attempt remaining : nat) : result A * list RetryEvent :=
  match operation attempt with
  | Ok v => (Ok v, [Invoke attempt])
  | Throw e =>
      match remaining with
      | O => (Throw e, [Invoke attempt])
      | S rem =>
          if retryCondition e attempt then
            let '(r, tr) := retry_from (S attempt) rem in
            (r, Invoke attempt :: Sleep (retry_delay attempt) :: tr)
          else (Throw e, [Invoke attempt])
      end
  end.

Definition withRetry : result A * list RetryEvent := retry_from 0 maxRetries.
End WithRetry.

Fixpoint count_invokes (tr : list RetryEvent) : nat :=
  match tr with
  | [] => 0
  | Invoke _ :: tr' => S (count_invokes tr')
  | Sleep _ :: tr' => count_invokes tr'
  end.

(* ------------------------------------------------------------------ *)
(** ** CircuitBreaker (errors.js, lines 53-119) *)

Inductive BState := CLOSED | OPEN | HALF_OPEN.

Definition BState_eqb (s t : BState) : bool :=
  match s, t with
  | CLOSED, CLOSED | OPEN, OPEN | HALF_OPEN, HALF_OPEN => true
  | _, _ => false
  end.

(** The fields read and written by [execute]; [monitoringPeriod] and
    [successCount] are never read and are left out. *)
Record CircuitBreaker := mkCB {
  cb_state : BState;
  failureCount : Z;
  lastFailureTime : option Z;   (* [null] until the first failure *)
  failureThreshold : Z;
  resetTimeout : Z
}.

(** [options.x || d] for a numeric option: [undefined] and [0] are falsy. *)
Definition js_or_num (o : option Z) (d : Z) : Z :=
  match o with Some x => if Z.eqb x 0 then d else x | None => d end.

Definition new_CircuitBreaker (optThreshold optReset : option Z) : CircuitBreaker :=
  mkCB CLOSED 0 None (js_or_num optThreshold 5) (js_or_num optReset 60000).

(** [Date.now() - this.lastFailureTime]: [null] converts to [0]. *)
Definition elapsed_since_failure (now : Z) (b : CircuitBreaker) : Z :=
  now - match lastFailureTime b with Some t => t | None => 0 end.

Definition breaker_open_error : JsError :=
  mkError ArbitrageErrorC "CIRCUIT_BREAKER_OPEN" "Circuit breaker is OPEN - operation blocked".

Definition set_state (s : BState) (b : CircuitBreaker) : CircuitBreaker :=
  mkCB s (failureCount b) (lastFailureTime b) (failureThreshold b) (resetTimeout b).

(** The gate at the top of [execute] (lines 68-80): [None] is the throw of
    [breaker_open_error]; [Some b'] lets the operation run. *)
Definition cb_enter (now : Z) (b : CircuitBreaker) : option CircuitBreaker :=
  match cb_state b with
  | OPEN =>
      if Z.leb (resetTimeout b) (elapsed_since_failure now b)
      then Some (set_state HALF_OPEN b)
      else None
  | _ => Some b
  end.

(** [onSuccess] (lines 92-99). *)
Definition onSuccess (b : CircuitBreaker) : CircuitBreaker :=
  let b1 := mkCB (cb_state b) 0 (lastFailureTime b) (failureThreshold b) (resetTimeout b) in
  match cb_state b with HALF_OPEN => set_state CLOSED b1 | _ => b1 end.

(** [onFailure] (lines 101-110); [now] is the time the operation failed. *)
Definition onFailure (now : Z) (b : CircuitBreaker) : CircuitBreaker :=
  let b1 := mkCB (cb_state b) (failureCount b + 1) (Some now) (failureThreshold b) (resetTimeout b) in
  if Z.leb (failureThreshold b1) (failureCount b1) then set_state OPEN b1 else b1.

(** [execute] (lines 67-90): the call starts at [now]; if it is let
    through, the operation runs and ends at [tend] with [outcome].  The
    boolean says whether the operation was invoked. *)
Definition cb_execute {A} (b : CircuitBreaker) (now : Z) (outcome : result A) (tend : Z)
    : result A * bool * CircuitBreaker :=
  match cb_enter now b with
  | None => (Throw breaker_open_error, false, b)
  | Some b1 =>
      match outcome with
      | Ok v => (Ok v, true, onSuccess b1)
      | Throw e => (Throw e, true, onFailure tend b1)
      end
  end.

(** The primitive updates of the breaker, for tracing its states. *)
Inductive CbStep := Gate (now : Z) | Succeeded | Failed (tend : Z).

(** One call of [execute] as its primitive steps, with the state before
    and after each. *)
Definition cb_call_steps {A} (b : CircuitBreaker) (c : Z * result A * Z)
    : list (CircuitBreaker * CbStep * CircuitBreaker) * CircuitBreaker :=
  let '(now, outcome, tend) := c in
  match cb_enter now b with
  | None => ([(b, Gate now, b)], b)
  | Some b1 =>
      match outcome with
      | Ok _ => ([(b, Gate now, b1); (b1, Succeeded, onSuccess b1)], onSuccess b1)
      | Throw _ => ([(b, Gate now, b1); (b1, Failed tend, onFailure tend b1)], onFailure tend b1)
      end
  end.

(** A sequence of [execute] calls, one after the other. *)
Fixpoint cb_run {A} (b : CircuitBreaker) (calls : list (Z * result A * Z))
    : list (CircuitBreaker * CbStep * CircuitBreaker) * CircuitBreaker :=
  match calls with
  | [] => ([], b)
  | c :: cs =>
      let '(st, b1) := cb_call_steps b c in
      let '(st', b2) := cb_run b1 cs in
      (st ++ st', b2)
  end.

(** The four transitions of the breaker's design, each with its trigger. *)
Inductive cb_edge : CircuitBreaker -> CbStep -> CircuitBreaker -> Prop :=
| edge_closed_open b t b' :
    cb_state b = CLOSED -> cb_state b' = OPEN ->
    failureCount b' = (failureCount b + 1)%Z -> (failureThreshold b <= failureCount b')%Z ->
    cb_edge b (Failed t) b'
| edge_open_half_open b now b' :
    cb_state b = OPEN -> cb_state b' = HALF_OPEN ->
    (resetTimeout b <= elapsed_since_failure now b)%Z ->
    cb_edge b (Gate now) b'
| edge_half_open_closed b b' :
    cb_state b = HALF_OPEN -> cb_state b' = CLOSED -> cb_edge b Succeeded b'
| edge_half_open_open b t b' :
    cb_state b = HALF_OPEN -> cb_state b' = OPEN -> cb_edge b (Failed t) b'.

(* ------------------------------------------------------------------ *)
(** ** Configuration (arbitrage/index.js, lines 13-16) *)

Record Config := mkConfig {
  ARBITRAGE_THRESHOLD : Q;
  TRADE_AMOUNT : Q;
  MAX_CONCURRENT_TRADES : Z
}.

(* ------------------------------------------------------------------ *)
(** ** Array.prototype.sort *)

(** A stable sort with a comparator, as [Array.prototype.sort] is (it is
    required to be stable since ES2019): [cmp a b <= 0] keeps [a] before
    [b], so an element goes in front of the first element it does not
    compare greater than, and equal elements keep their input order. *)
Fixpoint insert_by {A} (cmp : A -> A -> Q) (x : A) (l : list A) : list A :=
  match l with
  | [] => [x]
  | y :: ys => if Qle_bool (cmp x y) 0 then x :: y :: ys else y :: insert_by cmp x ys
  end.

Fixpoint js_sort {A} (cmp : A -> A -> Q) (l : list A) : list A :=
  match l with
  | [] => []
  | x :: xs => insert_by cmp x (js_sort cmp xs)
  end.

(* ------------------------------------------------------------------ *)
(** ** Opportunity detection and dispatch (arbitrage/index.js, lines 354-448) *)

(** A valid quote of [scanPairAcrossExchanges] (lines 270-277); the
    exchange object and the timestamp are not read by the detector. *)
Record PriceData := mkPriceData {
  pd_exchange : string;
  bestBid : Q;
  bestAsk : Q
}.

Record Opportunity := mkOpportunity {
  opp_symbol : string;
  buyExchange : string;
  sellExchange : string;
  buyPrice : Q;
  sellPrice : Q;
  priceDifference : Q;
  percentageDifference : Q;
  potentialProfit : Q;
  scanTimestamp : Z
}.

(** [priceData.sort((a, b) => b.bestBid - a.bestBid)] *)
Definition by_bid_desc (l : list PriceData) : list PriceData :=
  js_sort (fun a b => (bestBid b - bestBid a)%Q) l.

(** [priceData.sort((a, b) => a.bestAsk - b.bestAsk)]; the source sorts the
    same array in place, so this is applied to the bid-sorted array. *)
Definition by_ask_asc (l : list PriceData) : list PriceData :=
  js_sort (fun a b => (bestAsk a - bestAsk b)%Q) l.

(** [`${symbol}-${lowestAsk.exchange}-${highestBid.exchange}`] *)
Definition op_key (symbol buy sell : string) : string :=
  (symbol ++ "-" ++ buy ++ "-" ++ sell)%string.

(** The admission test of lines 420-437 together with the first statement
    of [executeArbitrageWithRecovery] (line 461), which runs synchronously
    when it is called: the key is set in [activeArbitrageOps] with the
    current time.  [true] means the execution was started. *)
Definition admit_dispatch (cfg : Config) (ops : gmap string Z) (key : string) (now : Z)
    : bool * gmap string Z :=
  let has := match ops !! key with Some _ => true | None => false end in
  if negb has && Z.ltb (Z.of_nat (size ops)) (MAX_CONCURRENT_TRADES cfg)
  then (true, <[key := now]> ops)
  else (false, ops).

(** What [findAndExecuteArbitrageOpportunity] hands on: the opportunity to
    [recordArbitrageOpportunity], and either the background execution
    [executeArbitrageWithRecovery] under its key or the skip. *)
Inductive DetectEffect :=
| RecordOpportunity (o : Opportunity)
| StartExecution (key : string) (o : Opportunity)
| SkipExecution (key : string).

(** [priceData[0].exchange] on an empty array. *)
Definition undefined_property_error : JsError :=
  mkError (NativeError "TypeError") "" "Cannot read properties of undefined (reading 'exchange')".

(** [findAndExecuteArbitrageOpportunity] (lines 354-448).  [ops] is
    [activeArbitrageOps]; [now] is [Date.now()]. *)
Definition findAndExecuteArbitrageOpportunity (cfg : Config) (ops : gmap string Z)
    (priceData : list PriceData) (symbol : string) (now : Z)
    : result (list DetectEffect * gmap string Z) :=
  let byBid := by_bid_desc priceData in
  let byAsk := by_ask_asc byBid in
  match byBid, byAsk with
  | highestBid :: _, lowestAsk :: _ =>
      if String.eqb (pd_exchange highestBid) (pd_exchange lowestAsk) then Ok ([], ops)
      else
        let priceDiff := (bestBid highestBid - bestAsk lowestAsk)%Q in
        let percentageDiff := (priceDiff / bestAsk lowestAsk * 100)%Q in
        if Qle_bool percentageDiff (ARBITRAGE_THRESHOLD cfg) then Ok ([], ops)
        else if Qle_bool priceDiff 0 || Qle_bool percentageDiff 0 then Ok ([], ops)
        else
          let potentialProfit := (priceDiff * (TRADE_AMOUNT cfg / bestAsk lowestAsk))%Q in
          let opportunity := mkOpportunity symbol (pd_exchange lowestAsk) (pd_exchange highestBid)
                               (bestAsk lowestAsk) (bestBid highestBid) priceDiff percentageDiff
                               potentialProfit now in
          let key := op_key symbol (pd_exchange lowestAsk) (pd_exchange highestBid) in
          match admit_dispatch cfg ops key now with
          | (true, ops') => Ok ([RecordOpportunity opportunity; StartExecution key opportunity], ops')
          | (false, ops') => Ok ([RecordOpportunity opportunity; SkipExecution key], ops')
          end
  | _, _ => Throw (enhanceError undefined_property_error)
  end.

(** The other updates of [activeArbitrageOps]: the removal scheduled 60 s
    after an execution settles (lines 482-484), and
    [cleanupStaleOperations] (lines 142-155), which drops every entry
    older than 300000 ms. *)
Definition cooldown_remove (key : string) (ops : gmap string Z) : gmap string Z :=
  delete key ops.

Definition cleanupStaleOperations (now : Z) (ops : gmap string Z) : gmap string Z :=
  filter (fun kv => ~ (now - kv.2 > 300000)%Z) ops.

Inductive OpsEvent :=
| Dispatch (key : string) (now : Z)
| CooldownRemove (key : string)
| StaleSweep (now : Z).

(** A history of dispatch attempts and removals; the booleans are the
    admission decisions of the dispatches, in order. *)
Fixpoint ops_run (cfg : Config) (ops : gmap string Z) (evs : list OpsEvent)
    : list bool * gmap string Z :=
  match evs with
  | [] => ([], ops)
  | Dispatch key now :: evs' =>
      let '(ok, ops1) := admit_dispatch cfg ops key now in
      let '(oks, ops2) := ops_run cfg ops1 evs' in (ok :: oks, ops2)
  | CooldownRemove key :: evs' => ops_run cfg (cooldown_remove key ops) evs'
  | StaleSweep now :: evs' => ops_run cfg (cleanupStaleOperations now ops) evs'
  end.

(** Scenario A of the specification: V1 quotes 100 / 100.2, V2 quotes
    101.5 / 101.8; the threshold is 0.5 %, the trade amount 100, at most 3
    concurrent trades. *)
Definition scenario_cfg : Config := mkConfig (1#2) 100 3.

Definition scenario_A_quotes : list PriceData :=
  [mkPriceData "V1" 100 (1002#10); mkPriceData "V2" (1015#10) (1018#10)].

(** The tie-breaking rules, in the words of a reader: the first element
    of [l], in input order, that is [le] every element of [l]. *)
Definition first_least {A} (le : A -> A -> bool) (l : list A) : option A :=
  find (fun x => forallb (le x) l) l.

(** The quote with the highest bid, the first one in input order among ties. *)
Definition first_max_bid (l : list PriceData) : option PriceData :=
  first_least (fun x y => Qle_bool (bestBid y) (bestBid x)) l.

(** The quote with the lowest ask, the first one in input order among ties. *)
Definition first_min_ask (l : list PriceData) : option PriceData :=
  first_least (fun x y => Qle_bool (bestAsk x) (bestAsk y)) l.

(** [x] comes no later than [y] when its ask is lower, or the asks are
    equal and its bid is at least as high. *)
Definition ask_then_bid_le (x y : PriceData) : bool :=
  negb (Qle_bool (bestAsk y) (bestAsk x)) ||
  (Qeq_bool (bestAsk x) (bestAsk y) && Qle_bool (bestBid y) (bestBid x)).

(** The quote with the lowest ask; among equal asks the one with the
    highest bid; among those, the first one in input order. *)
Definition first_min_ask_max_bid (l : list PriceData) : option PriceData :=
  first_least ask_then_bid_le l.

(** Three quotes where the two lowest asks are equal. *)
Definition tie_quotes : list PriceData :=
  [mkPriceData "A" 1 5; mkPriceData "B" 2 5; mkPriceData "C" 10 11].

(* ------------------------------------------------------------------ *)
(** ** Validators (errors.js, lines 240-271) *)

Definition is_upper (c : Ascii.ascii) : bool :=
  Nat.leb 65 (Ascii.nat_of_ascii c) && Nat.leb (Ascii.nat_of_ascii c) 90.

(** [/^[A-Z]+$/.test(s)] *)
Fixpoint upper_word (s : string) : bool :=
  match s with
  | EmptyString => false
  | String c EmptyString => is_upper c
  | String c rest => is_upper c && upper_word rest
  end.

(** [/^[A-Z]+\/[A-Z]+$/.test(s)]; [seen] records that the part before the
    slash is not empty. *)
Fixpoint symbol_match (seen : bool) (s : string) : bool :=
  match s with
  | EmptyString => false
  | String c rest =>
      if Ascii.eqb c "/"%char then seen && upper_word rest
      else is_upper c && symbol_match true rest
  end.

(** [validators.isValidSymbol]: the empty string is falsy. *)
Definition isValidSymbol (symbol : string) : result unit :=
  if String.eqb symbol "" then
    Throw (mkError ValidationErrorC "VALIDATION_ERROR" "Symbol must be a non-empty string")
  else if symbol_match false symbol then Ok tt
  else Throw (mkError ValidationErrorC "VALIDATION_ERROR" "Symbol must be in format BASE/QUOTE").

(** [validators.isValidAmount]; amounts are rationals, always of type
    number and finite. *)
Definition isValidAmount (amount : Q) : result unit :=
  if Qle_bool amount 0 then
    Throw (mkError ValidationErrorC "VALIDATION_ERROR" "Amount must be a positive finite number")
  else Ok tt.

(* ------------------------------------------------------------------ *)
(** ** Trade execution (arbitrage/index.js, lines 496-628) *)

(** The levels the code logs at, from the most to the least severe. *)
Inductive LogLevel := LError | LWarn | LInfo | LDebug.

Definition level_rank (l : LogLevel) : nat :=
  match l with LError => 3 | LWarn => 2 | LInfo => 1 | LDebug => 0 end.

(** An order returned by [executeBuy] / [executeSell]; only its [id] is read. *)
Record Order := mkOrder { order_id : option string }.

Record Trade := mkTrade {
  trade_opportunity : Opportunity;
  buyOrderId : string;
  sellOrderId : string;
  trade_baseAmount : Q;
  quoteAmount : Q
}.

(** What a run of [executeArbitrage] does, in order: log lines, the calls
    of [executeBuy] and [executeSell] made by [withRetry] (numbered by
    attempt), its delays, and the trade handed to [recordTrade]. *)
Inductive ExecEvent :=
| LogE (level : LogLevel) (msg : string)
| BuyCall (attempt : nat)
| SellCall (attempt : nat)
| Wait (ms : Z)
| RecordTrade (t : Trade).

Definition retry_to_exec (call : nat -> ExecEvent) (ev : RetryEvent) : ExecEvent :=
  match ev with Invoke i => call i | Sleep d => Wait d end.

(** The [retryCondition] of both legs (lines 542-547 and 563-567). *)
Definition leg_retry_condition (e : JsError) (_ : nat) : bool :=
  includes (err_message e) "timeout" && negb (includes (err_message e) "insufficient")
  && negb (includes (err_message e) "balance").

(** [withRetry(() => executeBuy(...), { maxRetries: 1, baseDelay: 1000, ... })];
    [maxDelay] and [backoffFactor] keep their defaults 10000 and 2. *)
Definition leg_withRetry (leg : nat -> result (option Order)) : result (option Order) * list RetryEvent :=
  withRetry 1 1000 10000 2 leg_retry_condition leg.

(** An exchange argument: [null], or an object with its [id]. *)
Definition exchange_id_ok (ex : option string) : option string :=
  match ex with
  | Some id => if String.eqb id "" then None else Some id
  | None => None
  end.

(** The checks of lines 499-516: the ids of both exchanges and the base
    amount, or the first error thrown. *)
Definition arb_validate (buyEx sellEx : option string) (symbol : string) (amount : Q)
    (opp : Opportunity) : result (string * string * Q) :=
  match isValidSymbol symbol with
  | Throw e => Throw e
  | Ok _ =>
  match isValidAmount amount with
  | Throw e => Throw e
  | Ok _ =>
  match exchange_id_ok buyEx with
  | None => Throw (mkError ArbitrageErrorC "INVALID_BUY_EXCHANGE" "Invalid buy exchange")
  | Some bid =>
  match exchange_id_ok sellEx with
  | None => Throw (mkError ArbitrageErrorC "INVALID_SELL_EXCHANGE" "Invalid sell exchange")
  | Some sid =>
  if Qle_bool (buyPrice opp) 0 then
    Throw (mkError ValidationErrorC "VALIDATION_ERROR" "Invalid opportunity data")
  else
    let baseAmount := (amount / buyPrice opp)%Q in
    if Qle_bool baseAmount 0 then
      Throw (mkError ValidationErrorC "VALIDATION_ERROR" "Invalid calculated base amount")
    else Ok (bid, sid, baseAmount)
  end end end end.

(** The [try] block of [executeArbitrage] (lines 497-609). [buy i] and
    [sell i] are the outcomes of the [i]-th call of [executeBuy] and
    [executeSell] ([Ok None] for [null]). *)
Definition executeArbitrage_body (buyEx sellEx : option string) (symbol : string) (amount : Q)
    (opp : Opportunity) (buy sell : nat -> result (option Order)) : result unit * list ExecEvent :=
  match arb_validate buyEx sellEx symbol amount opp with
  | Throw e => (Throw e, [])
  | Ok (bid, sid, baseAmount) =>
      let start := [LogE LInfo ("Executing arbitrage trade for " ++ symbol)%string;
                    LogE LInfo ("Executing buy order for " ++ symbol ++ " on " ++ bid)%string] in
      let '(rb, trb) := leg_withRetry buy in
      let buyEvs := start ++ map (retry_to_exec BuyCall) trb in
      match rb with
      | Throw e => (Throw e, buyEvs)
      | Ok None =>
          (Throw (mkError ArbitrageErrorC "BUY_ORDER_FAILED" ("Failed to execute buy order on " ++ bid)%string),
           buyEvs)
      | Ok (Some buyOrder) =>
          let '(rs, trs) := leg_withRetry sell in
          let sellEvs := buyEvs ++ LogE LInfo ("Executing sell order for " ++ symbol ++ " on " ++ sid)%string
                                   :: map (retry_to_exec SellCall) trs in
          match rs with
          | Throw e => (Throw e, sellEvs)
          | Ok None =>
              (Throw (mkError ArbitrageErrorC "SELL_ORDER_FAILED_AFTER_BUY"
                        ("Failed to execute sell order on " ++ sid ++ " after successful buy")%string),
               sellEvs ++ [LogE LError ("CRITICAL: Buy order succeeded but sell order failed for " ++ symbol)%string])
          | Ok (Some sellOrder) =>
              let trade := mkTrade opp (match order_id buyOrder with Some i => i | None => "simulated" end)
                                       (match order_id sellOrder with Some i => i | None => "simulated" end)
                                       baseAmount amount in
              (Ok tt, sellEvs ++ [RecordTrade trade; LogE LInfo "Successfully executed arbitrage"])
          end
      end
  end.

(** [executeArbitrage]: the [catch] (lines 611-627) enhances, logs and
    rethrows. *)
Definition executeArbitrage (buyEx sellEx : option string) (symbol : string) (amount : Q)
    (opp : Opportunity) (buy sell : nat -> result (option Order)) : result unit * list ExecEvent :=
  match executeArbitrage_body buyEx sellEx symbol amount opp buy sell with
  | (Ok v, tr) => (Ok v, tr)
  | (Throw e, tr) =>
      let e' := enhanceError e in
      (Throw e', tr ++ [LogE LError ("Error executing arbitrage: " ++ err_message e')%string])
  end.

(* ------------------------------------------------------------------ *)
(** ** Exchange operations (src/src/exchanges/index.js, lines 374-686) *)

(** The fields of a ccxt exchange instance read by the code: its [id] and
    its [markets] table ([undefined] before the markets are loaded). *)
Record Market := mkMarket { active : bool }.

Record Exchange := mkExchange {
  ex_id : string;
  markets : option (gmap string Market)
}.

(** [!exchange || !exchange.id] fails the check. *)
Definition exchange_ok (exchange : option Exchange) : option Exchange :=
  match exchange with
  | Some ex => if String.eqb (ex_id ex) "" then None else Some ex
  | None => None
  end.

(** [exchange.markets[symbol]], [undefined] when missing. *)
Definition market_of (ex : Exchange) (symbol : string) : option Market :=
  match markets ex with Some ms => ms !! symbol | None => None end.

(** An order book as returned by [exchange.fetchOrderBook]: [None] for a
    field that is not an array. *)
Record RawOrderBook := mkRawOrderBook {
  raw_bids : option (list (Q * Q));
  raw_asks : option (list (Q * Q))
}.

Record OrderBook := mkOrderBook {
  bids : list (Q * Q);
  asks : list (Q * Q)
}.

Definition market_not_available (ex : Exchange) (symbol : string) : JsError :=
  mkError ExchangeErrorC "MARKET_NOT_AVAILABLE"
    ("Trading pair " ++ symbol ++ " not available on " ++ ex_id ex)%string.

Definition breaker_missing (ex : Exchange) : JsError :=
  mkError ExchangeErrorC "CIRCUIT_BREAKER_MISSING" ("Circuit breaker not found for " ++ ex_id ex)%string.

Definition invalid_exchange : JsError :=
  mkError ExchangeErrorC "INVALID_EXCHANGE" "Invalid exchange instance".

(** The operation retried by [fetchOrderBook] (lines 410-430), given the
    outcome of the client call ([Ok None] for a [null] response). *)
Definition orderbook_attempt (symbol : string) (resp : result (option RawOrderBook)) : result OrderBook :=
  match resp with
  | Throw e => Throw e
  | Ok (Some (mkRawOrderBook (Some b) (Some a))) =>
      match b, a with
      | _ :: _, _ :: _ => Ok (mkOrderBook b a)
      | _, _ => Throw (mkError ExchangeErrorC "EMPTY_ORDERBOOK" ("Empty order book for " ++ symbol)%string)
      end
  | Ok _ =>
      Throw (mkError ExchangeErrorC "INVALID_ORDERBOOK_DATA" ("Invalid order book data received for " ++ symbol)%string)
  end.

(** The [retryCondition] of lines 436-440. *)
Definition fetch_retry_condition (e : JsError) (_ : nat) : bool :=
  includes (err_message e) "timeout" || includes (err_message e) "ECONNREFUSED"
  || includes (err_message e) "rate limit".

(** The [try] block of [fetchOrderBook] (lines 376-445).  [breakers] is
    [exchangeCircuitBreakers]; the breaker object it holds is updated in
    place, which is the new map returned.  [client i] is the outcome of the
    [i]-th call of [exchange.fetchOrderBook]; [now] and [tend] are the
    times at which [execute] starts and at which the retried operation
    settles. *)
Definition fetchOrderBook_try (breakers : gmap string CircuitBreaker) (exchange : option Exchange)
    (symbol : string) (limit : Q) (now tend : Z) (client : nat -> result (option RawOrderBook))
    : result OrderBook * gmap string CircuitBreaker :=
  match isValidSymbol symbol with
  | Throw e => (Throw e, breakers)
  | Ok _ =>
  if Qle_bool limit 0 || negb (Qle_bool limit 100) then
    (Throw (mkError ValidationErrorC "VALIDATION_ERROR" "Limit must be a positive number between 1 and 100"), breakers)
  else
  match exchange_ok exchange with
  | None => (Throw invalid_exchange, breakers)
  | Some ex =>
  match market_of ex symbol with
  | None => (Throw (market_not_available ex symbol), breakers)
  | Some _ =>
  match breakers !! ex_id ex with
  | None => (Throw (breaker_missing ex), breakers)
  | Some cb =>
      let outcome := fst (withRetry 2 1000 10000 2 fetch_retry_condition
                            (fun i => orderbook_attempt symbol (client i))) in
      let '(r, _, cb') := cb_execute cb now outcome tend in
      (r, <[ex_id ex := cb']> breakers)
  end end end end.

(** [fetchOrderBook]: the [catch] (lines 447-459) enhances and logs the
    error and returns [null] ([Ok None]); logging is not modelled. *)
Definition fetchOrderBook (breakers : gmap string CircuitBreaker) (exchange : option Exchange)
    (symbol : string) (limit : Q) (now tend : Z) (client : nat -> result (option RawOrderBook))
    : result (option OrderBook) * gmap string CircuitBreaker :=
  match fetchOrderBook_try breakers exchange symbol limit now tend client with
  | (Ok ob, bs) => (Ok (Some ob), bs)
  | (Throw e, bs) => let _ := enhanceError e in (Ok None, bs)
  end.

(** The operation retried by [executeBuy] / [executeSell]: the order
    returned by [createMarketBuyOrder] / [createMarketSellOrder] must have
    a truthy [id]. *)
Definition order_attempt (side : string) (resp : result (option Order)) : result Order :=
  match resp with
  | Throw e => Throw e
  | Ok (Some o) =>
      match order_id o with
      | Some id => if String.eqb id "" then
                     Throw (mkError ExchangeErrorC "INVALID_ORDER_RESPONSE"
                              ("Invalid order response for " ++ side ++ " order")%string)
                   else Ok o
      | None => Throw (mkError ExchangeErrorC "INVALID_ORDER_RESPONSE"
                         ("Invalid order response for " ++ side ++ " order")%string)
      end
  | Ok None =>
      Throw (mkError ExchangeErrorC "INVALID_ORDER_RESPONSE" ("Invalid order response for " ++ side ++ " order")%string)
  end.

(** The [try] block shared by [executeBuy] (lines 470-556) and
    [executeSell] (lines 583-669), [side] being ["buy"] or ["sell"];
    [enableTrading] is [process.env.ENABLE_TRADING === 'true'].  The
    simulated order has the id [`sim_${side}_${Date.now()}`]. *)
Definition execute_order_try (side : string) (breakers : gmap string CircuitBreaker)
    (enableTrading : bool) (exchange : option Exchange) (symbol : string) (amount : Q)
    (now tend : Z) (client : nat -> result (option Order))
    : result Order * gmap string CircuitBreaker :=
  match isValidSymbol symbol with
  | Throw e => (Throw e, breakers)
  | Ok _ =>
  match isValidAmount amount with
  | Throw e => (Throw e, breakers)
  | Ok _ =>
  match exchange_ok exchange with
  | None => (Throw invalid_exchange, breakers)
  | Some ex =>
  if negb enableTrading then
    (Ok (mkOrder (Some ("sim_" ++ side ++ "_" ++ pretty now)%string)), breakers)
  else
  match market_of ex symbol with
  | None => (Throw (market_not_available ex symbol), breakers)
  | Some m =>
  if negb (active m) then
    (Throw (mkError ExchangeErrorC "MARKET_INACTIVE"
              ("Trading pair " ++ symbol ++ " is not active on " ++ ex_id ex)%string), breakers)
  else
  match breakers !! ex_id ex with
  | None => (Throw (breaker_missing ex), breakers)
  | Some cb =>
      let outcome := fst (withRetry 1 2000 10000 2 leg_retry_condition
                            (fun i => order_attempt side (client i))) in
      let '(r, _, cb') := cb_execute cb now outcome tend in
      (r, <[ex_id ex := cb']> breakers)
  end end end end end.

(** The [catch] of [executeBuy] / [executeSell]: enhance, log, return
    [null]. *)
Definition execute_order (side : string) (breakers : gmap string CircuitBreaker)
    (enableTrading : bool) (exchange : option Exchange) (symbol : string) (amount : Q)
    (now tend : Z) (client : nat -> result (option Order))
    : result (option Order) * gmap string CircuitBreaker :=
  match execute_order_try side breakers enableTrading exchange symbol amount now tend client with
  | (Ok o, bs) => (Ok (Some o), bs)
  | (Throw e, bs) => let _ := enhanceError e in (Ok None, bs)
  end.

Definition executeBuy := execute_order "buy".
Definition executeSell := execute_order "sell".

(* ------------------------------------------------------------------ *)
(** ** Price fetch of [scanPairAcrossExchanges] (arbitrage/index.js, lines 229-307) *)

(** An entry of [exchangeHealth]. *)
Record Health := mkHealth {
  healthy : bool;
  lastError : option string;
  errorCount : Z;
  lastSuccessfulScan : Z
}.

(** The task run for one exchange (lines 229-307), with the maps
    [exchangeHealth] and [exchangeCircuitBreakers] it updates.  It calls
    [fetchOrderBook] with the default [limit = 5]. *)
Definition fetch_price_task (health : gmap string Health) (breakers : gmap string CircuitBreaker)
    (exchangeId : string) (exchange : Exchange) (symbol : string) (now tend : Z)
    (client : nat -> result (option RawOrderBook))
    : option PriceData * gmap string Health * gmap string CircuitBreaker :=
  match market_of exchange symbol with
  | None => (None, health, breakers)
  | Some _ =>
  let '(r, breakers') := fetchOrderBook breakers (Some exchange) symbol 5 now tend client in
  match r with
  | Throw e =>
      (* the catch of lines 279-306 *)
      let e' := enhanceError e in
      let health' :=
        match health !! exchangeId with
        | Some h =>
            let cnt := (errorCount h + 1)%Z in
            <[exchangeId := mkHealth (if Z.leb 3 cnt then false else healthy h)
                                     (Some (err_message e')) cnt (lastSuccessfulScan h)]> health
        | None => health
        end in
      (None, health', breakers')
  | Ok None => (None, health, breakers')
  | Ok (Some ob) =>
      match bids ob, asks ob with
      | (bestBid, _) :: _, (bestAsk, _) :: _ =>
          if Qle_bool bestBid 0 || Qle_bool bestAsk 0 || Qle_bool bestAsk bestBid then
            (None, health, breakers')
          else
            let health' :=
              match health !! exchangeId with
              | Some h =>
                  if healthy h then
                    <[exchangeId := mkHealth true (lastError h) (errorCount h) now]> health
                  else <[exchangeId := mkHealth true (lastError h) 0 now]> health
              | None => health
              end in
            (Some (mkPriceData exchangeId bestBid bestAsk), health', breakers')
      | _, _ => (None, health, breakers')
      end
  end end.

(** Consecutive scans of one exchange: each element is the start time,
    the settle time and the client outcomes of one scan. *)
Fixpoint fetch_scans (health : gmap string Health) (breakers : gmap string CircuitBreaker)
    (exchangeId : string) (exchange : Exchange) (symbol : string)
    (scans : list (Z * Z * (nat -> result (option RawOrderBook))))
    : gmap string Health * gmap string CircuitBreaker :=
  match scans with
  | [] => (health, breakers)
  | (now, tend, client) :: rest =>
      let '(_, health', breakers') := fetch_price_task health breakers exchangeId exchange symbol now tend client in
      fetch_scans health' breakers' exchangeId exchange symbol rest
  end.

(** The state of [startArbitrageScanner] for one exchange "binance" that
    lists BTC/USDT: healthy, no error, and its breaker (threshold 3, reset
    30000 ms) closed. *)
Definition binance : Exchange :=
  mkExchange "binance" (Some (<["BTC/USDT" := mkMarket true]> ∅)).

Definition health0 : gmap string Health := <["binance" := mkHealth true None 0 0]> ∅.

Definition breakers0 : gmap string CircuitBreaker :=
  <["binance" := new_CircuitBreaker (Some 3%Z) (Some 30000%Z)]> ∅.

(** Every request is refused. *)
Definition econnrefused : JsError :=
  mkError (NativeError "NetworkError") "" "connect ECONNREFUSED 127.0.0.1:443".

Definition refused (_ : nat) : result (option RawOrderBook) := Throw econnrefused.

(* ------------------------------------------------------------------ *)
(** ** Recovery strategies (errors.js, lines 276-308) *)

(** [recoveryStrategies.retryWithBackoff]: [withRetry] with
    [maxRetries: 3] and [baseDelay: 1000]; [maxDelay], [backoffFactor]
    and [retryCondition] keep their defaults 10000, 2 and [() => true]. *)
Definition retryWithBackoff {A} (operation : nat -> result A) : result A * list RetryEvent :=
  withRetry 3 1000 10000 2 (fun _ _ => true) operation.

(* ------------------------------------------------------------------ *)
(** ** Consecutive calls of [CircuitBreaker.execute] *)

(** Calls of [execute] on one breaker, one after the other: for each call
    its result and whether its operation was invoked, and the breaker at
    the end. *)
Fixpoint cb_execute_seq {A} (b : CircuitBreaker) (calls : list (Z * result A * Z))
    : list (result A * bool) * CircuitBreaker :=
  match calls with
  | [] => ([], b)
  | (now, outcome, tend) :: cs =>
      let '(r, inv, b1) := cb_execute b now outcome tend in
      let '(rs, b2) := cb_execute_seq b1 cs in
      ((r, inv) :: rs, b2)
  end.

(* ------------------------------------------------------------------ *)
(** ** Ticker (src/src/exchanges/index.js, lines 294-366) *)

(** A ticker as returned by [exchange.fetchTicker]: [None] for a [bid] or
    [ask] that is not a number. *)
Record Ticker := mkTicker {
  ticker_bid : option Q;
  ticker_ask : option Q
}.

(** The operation retried by [fetchTicker] (lines 320-332). *)
Definition ticker_attempt (symbol : string) (resp : result (option Ticker)) : result Ticker :=
  match resp with
  | Throw e => Throw e
  | Ok (Some t) =>
      match ticker_bid t, ticker_ask t with
      | Some _, Some _ => Ok t
      | _, _ => Throw (mkError ExchangeErrorC "INVALID_TICKER_DATA" ("Invalid ticker data received for " ++ symbol)%string)
      end
  | Ok None => Throw (mkError ExchangeErrorC "INVALID_TICKER_DATA" ("Invalid ticker data received for " ++ symbol)%string)
  end.

(** The [try] block of [fetchTicker] (lines 295-348). *)
Definition fetchTicker_try (breakers : gmap string CircuitBreaker) (exchange : option Exchange)
    (symbol : string) (now tend : Z) (client : nat -> result (option Ticker))
    : result Ticker * gmap string CircuitBreaker :=
  match isValidSymbol symbol with
  | Throw e => (Throw e, breakers)
  | Ok _ =>
  match exchange_ok exchange with
  | None => (Throw invalid_exchange, breakers)
  | Some ex =>
  match market_of ex symbol with
  | None => (Throw (market_not_available ex symbol), breakers)
  | Some _ =>
  match breakers !! ex_id ex with
  | None => (Throw (breaker_missing ex), breakers)
  | Some cb =>
      let outcome := fst (withRetry 2 1000 10000 2 fetch_retry_condition
                            (fun i => ticker_attempt symbol (client i))) in
      let '(r, _, cb') := cb_execute cb now outcome tend in
      (r, <[ex_id ex := cb']> breakers)
  end end end end.

(** [fetchTicker]: the [catch] (lines 350-365) enhances and logs the
    error and returns [null] ([Ok None]). *)
Definition fetchTicker (breakers : gmap string CircuitBreaker) (exchange : option Exchange)
    (symbol : string) (now tend : Z) (client : nat -> result (option Ticker))
    : result (option Ticker) * gmap string CircuitBreaker :=
  match fetchTicker_try breakers exchange symbol now tend client with
  | (Ok t, bs) => (Ok (Some t), bs)
  | (Throw e, bs) => let _ := enhanceError e in (Ok None, bs)
  end.

(* ------------------------------------------------------------------ *)
(** ** Balance (src/src/exchanges/index.js, lines 693-750) *)

(** The operation retried by [fetchBalance]: a falsy or non-object
    response ([None]) is rejected. *)
Definition balance_attempt {B} (resp : result (option B)) : result B :=
  match resp with
  | Throw e => Throw e
  | Ok None => Throw (mkError ExchangeErrorC "INVALID_BALANCE_DATA" "Invalid balance data received")
  | Ok (Some bal) => Ok bal
  end.

(** The [try] block of [fetchBalance]; [client i] is the outcome of the
    [i]-th call of [exchange.fetchBalance()]. *)
Definition fetchBalance_try {B} (breakers : gmap string CircuitBreaker) (exchange : option Exchange)
    (now tend : Z) (client : nat -> result (option B)) : result B * gmap string CircuitBreaker :=
  match exchange_ok exchange with
  | None => (Throw invalid_exchange, breakers)
  | Some ex =>
  match breakers !! ex_id ex with
  | None => (Throw (breaker_missing ex), breakers)
  | Some cb =>
      let outcome := fst (withRetry 2 1000 10000 2 fetch_retry_condition
                            (fun i => balance_attempt (client i))) in
      let '(r, _, cb') := cb_execute cb now outcome tend in
      (r, <[ex_id ex := cb']> breakers)
  end end.

(** [fetchBalance]: the [catch] enhances and logs the error and returns
    [null] ([Ok None]). *)
Definition fetchBalance {B} (breakers : gmap string CircuitBreaker) (exchange : option Exchange)
    (now tend : Z) (client : nat -> result (option B)) : result (option B) * gmap string CircuitBreaker :=
  match fetchBalance_try breakers exchange now tend client with
  | (Ok bal, bs) => (Ok (Some bal), bs)
  | (Throw e, bs) => let _ := enhanceError e in (Ok None, bs)
  end.

(* ------------------------------------------------------------------ *)
(** ** Health monitoring (arbitrage/index.js, lines 114-140) *)

(** What [monitorExchangeHealth] does to one entry (the log lines are not
    modelled); [now] is [Date.now()]. *)
Definition monitor_entry (now : Z) (health : Health) : Health :=
  let timeSinceLastSuccess := (now - lastSuccessfulScan health)%Z in
  if Z.ltb 300000 timeSinceLastSuccess && healthy health then
    mkHealth false (lastError health) (errorCount health) (lastSuccessfulScan health)
  else if Z.leb timeSinceLastSuccess 300000 && negb (healthy health) then
    mkHealth true (lastError health) 0 (lastSuccessfulScan health)
  else health.

(** The loop updates every entry of [exchangeHealth] in place. *)
Definition monitorExchangeHealth (now : Z) (exchangeHealth : gmap string Health) : gmap string Health :=
  monitor_entry now <$> exchangeHealth.

(* ------------------------------------------------------------------ *)
(** ** Scanning (arbitrage/index.js, lines 161-347) *)

Definition insufficient_exchanges (n : nat) : JsError :=
  mkError ArbitrageErrorC "INSUFFICIENT_EXCHANGES"
    ("Need at least 2 exchanges for arbitrage, only found " ++ pretty (Z.of_nat n))%string.

(** The loop of lines 175-181: the exchanges whose health entry exists
    and is healthy, in key order. *)
Definition healthy_exchanges (health : gmap string Health) (exchanges : list (string * Exchange))
    : list (string * Exchange) :=
  List.filter (fun '(id, _) => match health !! id with Some h => healthy h | None => false end) exchanges.

(** The checks of [scanForArbitrageOpportunities] (lines 163-186) that
    come before the pairs are scanned.  [exchanges] is the list of
    [Object.keys(exchanges)] with their instances.  [Ok None] is one of
    the early [return]s; [Ok (Some l)] gives the exchanges every pair is
    then scanned on.  The [catch] enhances and rethrows.  The scans of the
    pairs, which run concurrently, are not part of this definition. *)
Definition scan_targets (cfg : Config) (ops : gmap string Z) (health : gmap string Health)
    (exchanges : list (string * Exchange)) : result (option (list (string * Exchange))) :=
  if Nat.ltb (length exchanges) 2 then Throw (enhanceError (insufficient_exchanges (length exchanges)))
  else if Z.leb (MAX_CONCURRENT_TRADES cfg) (Z.of_nat (size ops)) then Ok None
  else
    let hs := healthy_exchanges health exchanges in
    if Nat.ltb (length hs) 2 then Ok None else Ok (Some hs).

(** The module state that one scan of a pair reads and writes. *)
Record ScanState := mkScanState {
  exchangeHealth : gmap string Health;
  exchangeCircuitBreakers : gmap string CircuitBreaker;
  activeArbitrageOps : gmap string Z;
  scanErrors : gmap string Z
}.

(** The price-fetch tasks of one scan (lines 229-307), one per exchange
    in [Object.keys] order; the quotes come out in that order, as
    [Promise.allSettled] keeps the order of its input and no task rejects.
    Each task is the exchange id, its instance, the times at which its
    [fetchOrderBook] call starts and settles, and the outcomes of its
    client calls.  The tasks run concurrently, but each one reads and
    writes only the health entry of its own id and the breaker of its own
    exchange, so for exchanges with distinct ids they are run here one
    after the other. *)
Fixpoint fetch_all (health : gmap string Health) (breakers : gmap string CircuitBreaker) (symbol : string)
    (tasks : list (string * Exchange * Z * Z * (nat -> result (option RawOrderBook))))
    : list PriceData * gmap string Health * gmap string CircuitBreaker :=
  match tasks with
  | [] => ([], health, breakers)
  | (exchangeId, exchange, now, tend, client) :: ts =>
      let '(r, health1, breakers1) := fetch_price_task health breakers exchangeId exchange symbol now tend client in
      let '(pds, health2, breakers2) := fetch_all health1 breakers1 symbol ts in
      (match r with Some pd => pd :: pds | None => pds end, health2, breakers2)
  end.

(** The [try] block of [scanPairAcrossExchanges] (lines 221-324); [now] is
    [Date.now()] in [findAndExecuteArbitrageOpportunity]. *)
Definition scanPair_try (cfg : Config) (st : ScanState) (symbol : string) (now : Z)
    (tasks : list (string * Exchange * Z * Z * (nat -> result (option RawOrderBook))))
    : result (list DetectEffect) * ScanState :=
  match isValidSymbol symbol with
  | Throw e => (Throw e, st)
  | Ok _ =>
      let '(priceData, health, breakers) :=
        fetch_all (exchangeHealth st) (exchangeCircuitBreakers st) symbol tasks in
      let st1 := mkScanState health breakers (activeArbitrageOps st) (scanErrors st) in
      if Nat.ltb (length priceData) 2 then (Ok [], st1)
      else
        match findAndExecuteArbitrageOpportunity cfg (activeArbitrageOps st) priceData symbol now with
        | Throw e => (Throw e, st1)
        | Ok (effs, ops') => (Ok effs, mkScanState health breakers ops' (scanErrors st))
        end
  end.

(** [scanPairAcrossExchanges]: the [catch] (lines 326-346) enhances the
    error, counts it in [scanErrors] under the symbol and rethrows. *)
Definition scanPairAcrossExchanges (cfg : Config) (st : ScanState) (symbol : string) (now : Z)
    (tasks : list (string * Exchange * Z * Z * (nat -> result (option RawOrderBook))))
    : result (list DetectEffect) * ScanState :=
  match scanPair_try cfg st symbol now tasks with
  | (Ok effs, st') => (Ok effs, st')
  | (Throw e, st') =>
      let e' := enhanceError e in
      let errorCount := match scanErrors st' !! symbol with Some c => c | None => 0%Z end in
      (Throw e', mkScanState (exchangeHealth st') (exchangeCircuitBreakers st') (activeArbitrageOps st')
                   (<[symbol := (errorCount + 1)%Z]> (scanErrors st')))
  end.

(* ------------------------------------------------------------------ *)
(** ** Sample inputs *)



Definition open_breakers : gmap string CircuitBreaker :=
  <["binance" := mkCB OPEN 3 (Some 1000%Z) 3 30000]> ∅.

(** An exchange without loaded markets. *)
Definition kraken : Exchange := mkExchange "kraken" None.

(** Clients of the order legs: always refused, always an order, always [null]. *)
Definition no_orders (_ : nat) : result (option Order) := Throw econnrefused.
Definition order_b1 (_ : nat) : result (option Order) := Ok (Some (mkOrder (Some "b1"))).
Definition no_order (_ : nat) : result (option Order) := Ok None.

Definition sample_opp : Opportunity := mkOpportunity "BTC/USDT" "binance" "kraken" 100 101 1 1 1 0.

Definition bad_symbol_error : JsError :=
  mkError ValidationErrorC "VALIDATION_ERROR" "Symbol must be in format BASE/QUOTE".

(** Three operations that fail, one after the other. *)
Definition failing_calls : list (Z * result unit * Z) :=
  [(0, Throw econnrefused, 10); (20, Throw econnrefused, 30); (40, Throw econnrefused, 50)]%Z.

(* ------------------------------------------------------------------ *)
(** ** Auxiliary predicates and orders used in the proofs *)

(** Away from [CLOSED], the count of failures is at least the threshold. *)
Definition cb_inv (b : CircuitBreaker) : Prop :=
  cb_state b <> CLOSED -> (failureThreshold b <= failureCount b)%Z.

(** A primitive step keeps the state or follows an allowed edge. *)
Definition cb_step_ok (s : CircuitBreaker * CbStep * CircuitBreaker) : Prop :=
  let '(b, ev, b') := s in cb_state b' = cb_state b \/ cb_edge b ev b'.

Definition cb_trial_fails_reopens (s : CircuitBreaker * CbStep * CircuitBreaker) : Prop :=
  let '(b, ev, b') := s in
  cb_state b = HALF_OPEN -> (exists t, ev = Failed t) -> cb_state b' = OPEN.

(** Sortedness of the bid-sorted array. *)
Definition bid_desc (a b : PriceData) : Prop := (bestBid b <= bestBid a)%Q.

(** The orders of the two comparators: [x] may precede [y]. *)
Definition ask_le (x y : PriceData) : bool := Qle_bool (bestAsk x - bestAsk y) 0.
Definition bid_le (x y : PriceData) : bool := Qle_bool (bestBid y - bestBid x) 0.

(* ================================================================== *)
(** * Proofs *)

(* ------------------------------------------------------------------ *)
(** ** Properties of withRetry *)

Section WithRetryFacts.
Context {A : Type}.
Variable maxRetries : nat.
Variables baseDelay maxDelay backoffFactor : Z.
Variable retryCondition : JsError -> nat -> bool.
Variable operation : nat -> result A.

Local Abbreviation run := (retry_from baseDelay maxDelay backoffFactor retryCondition operation).

Lemma retry_from_starts a r : exists tr, snd (run a r) = Invoke a :: tr.
Proof.
  destruct r; simpl; destruct (operation a); simpl; eauto.
  destruct (retryCondition e a); [|eauto].
  destruct (retry_from _ _ _ _ _ _ _) as [x t]; simpl; eauto.
Qed.

Lemma retry_from_count a r : count_invokes (snd (run a r)) <= S r.
Proof.
  revert a. induction r as [|r IH]; intros a; simpl.
  - destruct (operation a); simpl; lia.
  - destruct (operation a); simpl; [lia|].
    destruct (retryCondition e a); simpl; [|lia].
    specialize (IH (S a)). destruct (retry_from _ _ _ _ _ _ _) as [x t].
    simpl in *. lia.
Qed.

Lemma retry_from_sleep a r pre d post :
  snd (run a r) = pre ++ Sleep d :: post ->
  exists k post', post = Invoke k :: post' /\ S a <= k /\
    d = retry_delay baseDelay maxDelay backoffFactor (k - 1).
Proof.
  revert a pre. induction r as [|r IH]; intros a pre Htr; simpl in Htr.
  - destruct (operation a); simpl in Htr;
      destruct pre as [|p [|p' pre]]; simpl in Htr; discriminate.
  - destruct (operation a) as [v|e]; simpl in Htr.
    + destruct pre as [|p [|p' pre]]; simpl in Htr; discriminate.
    + destruct (retryCondition e a).
      2: destruct pre as [|p [|p' pre]]; simpl in Htr; discriminate.
      destruct (retry_from_starts (S a) r) as [t0 Ht0].
      destruct (run (S a) r) as [x t] eqn:Hrun; simpl in Htr, Ht0.
      destruct pre as [|p [|p' pre]]; simpl in Htr; inversion Htr; subst.
      * exists (S a), t0. split; [reflexivity|]. split; [lia|].
        f_equal. lia.
      * destruct (IH (S a) pre) as (k & post' & -> & Hk & Hd).
        { rewrite Hrun. simpl. assumption. }
        exists k, post'. split; [reflexivity|]. split; [lia|exact Hd].
Qed.

Lemma retry_from_stop a r i e :
  In (Invoke i) (snd (run a r)) -> operation i = Throw e ->
  (i = a + r \/ retryCondition e i = false) ->
  fst (run a r) = Throw e /\ exists pre, snd (run a r) = pre ++ [Invoke i].
Proof.
  revert a. induction r as [|r IH]; intros a Hin Hop Hstop; simpl in *.
  - destruct (operation a) as [v|e'] eqn:Ha; simpl in Hin;
      destruct Hin as [Hin|[]]; inversion Hin; subst; rewrite Ha in Hop; try discriminate.
    inversion Hop; subst. split; [reflexivity|]. exists []. reflexivity.
  - destruct (operation a) as [v|e'] eqn:Ha; simpl in Hin.
    + destruct Hin as [Hin|[]]; inversion Hin; subst; congruence.
    + destruct (retryCondition e' a) eqn:Hc.
      * destruct (run (S a) r) as [x t] eqn:Hrun; simpl in Hin |- *.
        destruct Hin as [Hin|[Hin|Hin]]; [| discriminate |].
        -- inversion Hin; subst. rewrite Ha in Hop. inversion Hop; subst.
           destruct Hstop as [Hstop|Hstop]; [lia|congruence].
        -- assert (Hin' : In (Invoke i) (snd (run (S a) r))) by (rewrite Hrun; exact Hin).
           destruct (IH (S a) Hin' Hop) as [Hr [pre Hpre]].
           { destruct Hstop; [left; lia|right; assumption]. }
           rewrite Hrun in Hr, Hpre. simpl in Hr, Hpre. subst.
           split; [reflexivity|]. exists (Invoke a :: Sleep (retry_delay baseDelay maxDelay backoffFactor a) :: pre).
           reflexivity.
      * simpl in Hin |- *. destruct Hin as [Hin|[]]. inversion Hin; subst.
        rewrite Ha in Hop. inversion Hop; subst. split; [reflexivity|]. exists []. reflexivity.
Qed.

Lemma retry_from_error a r e :
  fst (run a r) = Throw e ->
  exists pre i, snd (run a r) = pre ++ [Invoke i] /\ operation i = Throw e.
Proof.
  revert a. induction r as [|r IH]; intros a Hr; simpl in *.
  - destruct (operation a) as [v|e'] eqn:Ha; simpl in Hr; inversion Hr; subst.
    exists [], a. split; [reflexivity|assumption].
  - destruct (operation a) as [v|e'] eqn:Ha; simpl in Hr; [discriminate|].
    destruct (retryCondition e' a) eqn:Hc.
    + destruct (run (S a) r) as [x t] eqn:Hrun; simpl in Hr |- *.
      assert (Hx : fst (run (S a) r) = Throw e) by (rewrite Hrun; exact Hr).
      destruct (IH (S a) Hx) as (pre & i & Hpre & Hop).
      rewrite Hrun in Hpre. simpl in Hpre. subst.
      exists (Invoke a :: Sleep (retry_delay baseDelay maxDelay backoffFactor a) :: pre), i.
      split; [reflexivity|assumption].
    + simpl in Hr |- *. inversion Hr; subst. exists [], a. split; [reflexivity|assumption].
Qed.
End WithRetryFacts.

(** C3: [withRetry] calls [operation] at most [maxRetries + 1] times; every
    delay is followed by a call, the call at attempt [k >= 1], and equals
    [min(baseDelay * backoffFactor^(k-1), maxDelay)]; a failure at the last
    attempt or one the predicate rejects ends the run at once with that
    error (no delay and no call after it); and a thrown result is always
    the error of the last call made. *)
Theorem withRetry_bounded_backoff {A} (maxRetries : nat) (baseDelay maxDelay backoffFactor : Z)
    (retryCondition : JsError -> nat -> bool) (operation : nat -> result A) :
  let r := fst (withRetry maxRetries baseDelay maxDelay backoffFactor retryCondition operation) in
  let tr := snd (withRetry maxRetries baseDelay maxDelay backoffFactor retryCondition operation) in
  count_invokes tr <= maxRetries + 1 /\
  (forall pre d post, tr = pre ++ Sleep d :: post ->
     exists k post', post = Invoke k :: post' /\ 1 <= k /\
       d = Z.min (baseDelay * backoffFactor ^ Z.of_nat (k - 1)) maxDelay) /\
  (forall i e, In (Invoke i) tr -> operation i = Throw e ->
     (i = maxRetries \/ retryCondition e i = false) ->
     r = Throw e /\ exists pre, tr = pre ++ [Invoke i]) /\
  (forall e, r = Throw e -> exists pre i, tr = pre ++ [Invoke i] /\ operation i = Throw e).
Proof.
  unfold withRetry. cbv zeta. split; [|split; [|split]].
  - pose proof (retry_from_count baseDelay maxDelay backoffFactor retryCondition operation 0 maxRetries). lia.
  - intros pre d post H.
    destruct (retry_from_sleep baseDelay maxDelay backoffFactor retryCondition operation 0 maxRetries pre d post H)
      as (k & post' & Hpost & Hk & Hd).
    exists k, post'. split; [exact Hpost|]. split; [lia|exact Hd].
  - intros i e Hin Hop Hstop.
    apply (retry_from_stop baseDelay maxDelay backoffFactor retryCondition operation 0 maxRetries i e Hin Hop).
    destruct Hstop; [left; lia|right; assumption].
  - intros e He. exact (retry_from_error baseDelay maxDelay backoffFactor retryCondition operation 0 maxRetries e He).
Qed.

(* ------------------------------------------------------------------ *)
(** ** Properties of CircuitBreaker *)

Section CircuitBreakerFacts.

Lemma cb_enter_edge now b b1 :
  cb_enter now b = Some b1 -> cb_state b1 = cb_state b \/ cb_edge b (Gate now) b1.
Proof.
  unfold cb_enter. destruct (cb_state b) eqn:Hs; intros H; inversion H; subst; auto.
  destruct (Z.leb_spec (resetTimeout b) (elapsed_since_failure now b)); inversion H1; subst.
  right. apply edge_open_half_open; auto.
Qed.

Lemma onSuccess_edge b : cb_state (onSuccess b) = cb_state b \/ cb_edge b Succeeded (onSuccess b).
Proof.
  unfold onSuccess. destruct (cb_state b) eqn:Hs; simpl; auto.
  right. apply edge_half_open_closed; auto.
Qed.

Lemma onFailure_edge t b : cb_state (onFailure t b) = cb_state b \/ cb_edge b (Failed t) (onFailure t b).
Proof.
  unfold onFailure. simpl. destruct (Z.leb_spec (failureThreshold b) (failureCount b + 1)); simpl; auto.
  destruct (cb_state b) eqn:Hs; auto.
  - right. apply edge_closed_open; simpl; auto.
  - right. apply edge_half_open_open; simpl; auto.
Qed.

Lemma cb_enter_inv now b b1 :
  cb_inv b -> cb_enter now b = Some b1 -> cb_inv b1 /\ cb_state b1 <> OPEN.
Proof.
  unfold cb_enter, cb_inv. intros Hi. destruct (cb_state b) eqn:Hs; intros H.
  - inversion H; subst. rewrite Hs. split; [intros; congruence|discriminate].
  - destruct (Z.leb_spec (resetTimeout b) (elapsed_since_failure now b)); inversion H; subst.
    simpl. split; [intros _; apply Hi; congruence|discriminate].
  - inversion H; subst. rewrite Hs. split; [exact Hi|discriminate].
Qed.

Lemma onSuccess_inv b : cb_state b <> OPEN -> cb_inv (onSuccess b).
Proof.
  unfold onSuccess, cb_inv. destruct (cb_state b) eqn:Hs; simpl; intros H1 H2; congruence.
Qed.

Lemma onFailure_inv t b : cb_inv b -> cb_inv (onFailure t b).
Proof.
  unfold onFailure, cb_inv. simpl. intros Hi.
  destruct (Z.leb_spec (failureThreshold b) (failureCount b + 1)); simpl; intros Hs.
  - lia.
  - specialize (Hi Hs). lia.
Qed.

Lemma onFailure_half_open t b :
  cb_inv b -> cb_state b = HALF_OPEN -> cb_state (onFailure t b) = OPEN.
Proof.
  unfold onFailure, cb_inv. simpl. intros Hi Hs.
  assert (failureThreshold b <= failureCount b)%Z by (apply Hi; congruence).
  destruct (Z.leb_spec (failureThreshold b) (failureCount b + 1)); simpl; [reflexivity|lia].
Qed.

(** The traced call ends in the breaker [execute] leaves behind. *)
Lemma cb_call_steps_execute {A} b now (outcome : result A) tend :
  snd (cb_call_steps b (now, outcome, tend)) = snd (cb_execute b now outcome tend).
Proof.
  unfold cb_call_steps, cb_execute. destruct (cb_enter now b); [destruct outcome|]; reflexivity.
Qed.

Lemma cb_run_ok {A} (calls : list (Z * result A * Z)) b :
  cb_inv b ->
  Forall cb_step_ok (fst (cb_run b calls)) /\ Forall cb_trial_fails_reopens (fst (cb_run b calls)).
Proof.
  revert b. induction calls as [|[[now outcome] tend] cs IH]; intros b Hi; simpl.
  - split; constructor.
  - unfold cb_call_steps. destruct (cb_enter now b) as [b1|] eqn:He.
    + destruct (cb_enter_inv now b b1 Hi He) as [Hi1 Hn1].
      destruct outcome as [v|e].
      * destruct (cb_run (onSuccess b1) cs) as [st b2] eqn:Hr; simpl.
        destruct (IH (onSuccess b1) (onSuccess_inv b1 Hn1)) as [IH1 IH2]. rewrite Hr in IH1, IH2.
        simpl in IH1, IH2.
        split.
        -- constructor; [simpl; destruct (cb_enter_edge now b b1 He); auto|].
           constructor; [simpl; apply onSuccess_edge|exact IH1].
        -- constructor; [simpl; intros _ [t Ht]; discriminate|].
           constructor; [simpl; intros _ [t Ht]; discriminate|exact IH2].
      * destruct (cb_run (onFailure tend b1) cs) as [st b2] eqn:Hr; simpl.
        destruct (IH (onFailure tend b1) (onFailure_inv tend b1 Hi1)) as [IH1 IH2].
        rewrite Hr in IH1, IH2. simpl in IH1, IH2.
        split.
        -- constructor; [simpl; destruct (cb_enter_edge now b b1 He); auto|].
           constructor; [simpl; apply onFailure_edge|exact IH1].
        -- constructor; [simpl; intros _ [t Ht]; discriminate|].
           constructor; [simpl; intros Hs _; apply onFailure_half_open; assumption|exact IH2].
    + destruct (cb_run b cs) as [st b2] eqn:Hr; simpl.
      destruct (IH b Hi) as [IH1 IH2]. rewrite Hr in IH1, IH2. simpl in IH1, IH2.
      split; constructor; try assumption.
      -- simpl. auto.
      -- simpl. intros _ [t Ht]; discriminate.
Qed.

End CircuitBreakerFacts.

(** C4: along any sequence of [execute] calls from a fresh breaker, every
    primitive update either keeps the state or is one of the four designed
    transitions with its trigger (CLOSED to OPEN when the incremented
    failure count reaches the threshold, OPEN to HALF_OPEN when the reset
    timeout has elapsed since the last failure, HALF_OPEN to CLOSED on a
    success, HALF_OPEN to OPEN on a failure); a failed trial in HALF_OPEN
    always reopens the breaker; and an [execute] in OPEN before the reset
    timeout has elapsed throws [CIRCUIT_BREAKER_OPEN] without invoking the
    operation and leaves the breaker unchanged. *)
Theorem circuit_breaker_transitions {A} (optThreshold optReset : option Z)
    (calls : list (Z * result A * Z)) :
  let steps := fst (cb_run (new_CircuitBreaker optThreshold optReset) calls) in
  Forall cb_step_ok steps /\
  Forall cb_trial_fails_reopens steps /\
  (forall b now (outcome : result A) tend,
     cb_state b = OPEN -> (elapsed_since_failure now b < resetTimeout b)%Z ->
     cb_execute b now outcome tend = (Throw breaker_open_error, false, b)).
Proof.
  cbv zeta.
  destruct (cb_run_ok calls (new_CircuitBreaker optThreshold optReset)) as [H1 H2].
  { unfold cb_inv. simpl. congruence. }
  split; [exact H1|split; [exact H2|]].
  intros b now outcome tend Hs Ht. unfold cb_execute, cb_enter. rewrite Hs.
  destruct (Z.leb_spec (resetTimeout b) (elapsed_since_failure now b)); [lia|reflexivity].
Qed.

Example scenario_A_detected :
  exists o ops', findAndExecuteArbitrageOpportunity scenario_cfg ∅ scenario_A_quotes "BTC/USDT" 0
  = Ok ([RecordOpportunity o; StartExecution "BTC/USDT-V1-V2" o], ops') /\
    buyExchange o = "V1" /\ sellExchange o = "V2".
Proof. eexists _, _. split; [vm_compute; reflexivity|]. split; reflexivity. Qed.

(* ------------------------------------------------------------------ *)
(** ** Properties of the detector *)

Section DetectorFacts.
Variable cfg : Config.

(** Every successful run either produces nothing and leaves the map as
    it was, or builds the opportunity from the heads of the two sorted
    arrays once the three guards have passed. *)
Lemma findAndExecute_cases ops pd symbol now effs ops' :
  findAndExecuteArbitrageOpportunity cfg ops pd symbol now = Ok (effs, ops') ->
  (effs = [] /\ ops' = ops) \/
  exists hb la r1 r2 key,
    by_bid_desc pd = hb :: r1 /\ by_ask_asc (by_bid_desc pd) = la :: r2 /\
    pd_exchange hb <> pd_exchange la /\
    (ARBITRAGE_THRESHOLD cfg < (bestBid hb - bestAsk la) / bestAsk la * 100)%Q /\
    (0 < bestBid hb - bestAsk la)%Q /\
    (0 < (bestBid hb - bestAsk la) / bestAsk la * 100)%Q /\
    key = op_key symbol (pd_exchange la) (pd_exchange hb) /\
    exists o, o = mkOpportunity symbol (pd_exchange la) (pd_exchange hb) (bestAsk la) (bestBid hb)
               (bestBid hb - bestAsk la) ((bestBid hb - bestAsk la) / bestAsk la * 100)
               ((bestBid hb - bestAsk la) * (TRADE_AMOUNT cfg / bestAsk la)) now /\
    ((effs = [RecordOpportunity o; StartExecution key o] /\ admit_dispatch cfg ops key now = (true, ops')) \/
    (effs = [RecordOpportunity o; SkipExecution key] /\ admit_dispatch cfg ops key now = (false, ops'))).
Proof.
  unfold findAndExecuteArbitrageOpportunity.
  destruct (by_bid_desc pd) as [|hb r1] eqn:Hb; [intros H; discriminate|].
  destruct (by_ask_asc (hb :: r1)) as [|la r2] eqn:Ha; [intros H; discriminate|].
  destruct (String.eqb_spec (pd_exchange hb) (pd_exchange la)) as [Heq|Hne].
  { intros H; inversion H; auto. }
  destruct (Qle_bool _ (ARBITRAGE_THRESHOLD cfg)) eqn:Hthr.
  { intros H; inversion H; auto. }
  destruct (Qle_bool (bestBid hb - bestAsk la) 0) eqn:Hd; simpl.
  { intros H; inversion H; auto. }
  destruct (Qle_bool ((bestBid hb - bestAsk la) / bestAsk la * 100) 0) eqn:Hp; simpl.
  { intros H; inversion H; auto. }
  intros H. right.
  exists hb, la, r1, r2, (op_key symbol (pd_exchange la) (pd_exchange hb)).
  split; [reflexivity|]. split; [reflexivity|]. split; [exact Hne|].
  split.
  { apply Qnot_le_lt. intros Hle. apply Qle_bool_iff in Hle. congruence. }
  split.
  { apply Qnot_le_lt. intros Hle. apply Qle_bool_iff in Hle. congruence. }
  split.
  { apply Qnot_le_lt. intros Hle. apply Qle_bool_iff in Hle. congruence. }
  split; [reflexivity|].
  eexists. split; [reflexivity|].
  destruct (admit_dispatch cfg ops _ now) as [[|] ops1] eqn:Hadm; inversion H; subst; auto.
Qed.

Lemma effs_opportunity o o0 key effs :
  (effs = [RecordOpportunity o0; StartExecution key o0] \/ effs = [RecordOpportunity o0; SkipExecution key]) ->
  (In (RecordOpportunity o) effs \/ exists k, In (StartExecution k o) effs) -> o = o0.
Proof.
  intros [->| ->] [Hin|[k Hin]]; simpl in Hin;
    repeat (destruct Hin as [Hin|Hin]; [inversion Hin; subst; reflexivity|]); destruct Hin.
Qed.

End DetectorFacts.

(** C1: an opportunity produced by [findAndExecuteArbitrageOpportunity]
    never buys and sells on the same exchange, and when the quote with the
    highest bid and the quote with the lowest ask come from one exchange
    the call returns without recording or dispatching anything. *)
Theorem detector_distinct_venues cfg ops priceData symbol now effs ops' :
  findAndExecuteArbitrageOpportunity cfg ops priceData symbol now = Ok (effs, ops') ->
  (forall o, In (RecordOpportunity o) effs \/ (exists key, In (StartExecution key o) effs) ->
     buyExchange o <> sellExchange o) /\
  (forall highestBid lowestAsk r1 r2,
     by_bid_desc priceData = highestBid :: r1 ->
     by_ask_asc (by_bid_desc priceData) = lowestAsk :: r2 ->
     pd_exchange highestBid = pd_exchange lowestAsk ->
     effs = [] /\ ops' = ops).
Proof.
  intros H. split.
  - intros o Hin.
    destruct (findAndExecute_cases cfg ops priceData symbol now effs ops' H)
      as [[-> ->]|(hb & la & r1 & r2 & key & Hb & Ha & Hne & _ & _ & _ & _ & o0 & Ho0 & Heffs)].
    + destruct Hin as [[]|[k []]].
    + assert (o = o0) as ->.
      { eapply effs_opportunity; [|exact Hin]. destruct Heffs as [[E _]|[E _]]; [left|right]; exact E. }
      subst o0. simpl. congruence.
  - intros hb la r1 r2 Hb Ha Heq.
    destruct (findAndExecute_cases cfg ops priceData symbol now effs ops' H)
      as [Hnil|(hb' & la' & r1' & r2' & key & Hb' & Ha' & Hne & _)]; [exact Hnil|].
    rewrite Hb in Hb'. inversion Hb'; subst. rewrite Ha' in Ha. inversion Ha; subst. congruence.
Qed.

(** C1, at Scenario A of the specification: an opportunity is produced,
    and the theorem applies to it. *)
Lemma detector_distinct_venues_witness :
  exists effs ops',
    findAndExecuteArbitrageOpportunity scenario_cfg ∅ scenario_A_quotes "BTC/USDT" 0 = Ok (effs, ops') /\
    effs <> [] /\
    (forall o, In (RecordOpportunity o) effs \/ (exists key, In (StartExecution key o) effs) ->
       buyExchange o <> sellExchange o) /\
    (forall highestBid lowestAsk r1 r2,
       by_bid_desc scenario_A_quotes = highestBid :: r1 ->
       by_ask_asc (by_bid_desc scenario_A_quotes) = lowestAsk :: r2 ->
       pd_exchange highestBid = pd_exchange lowestAsk ->
       effs = [] /\ ops' = ∅).
Proof.
  do 2 eexists. split; [vm_compute; reflexivity|]. split; [discriminate|].
  apply (detector_distinct_venues scenario_cfg ∅ scenario_A_quotes "BTC/USDT" 0).
  vm_compute. reflexivity.
Defined.

(** C2: every opportunity produced has [percentageDifference =
    (sellPrice - buyPrice) / buyPrice * 100], strictly above the threshold,
    and [sellPrice > buyPrice]; when the percentage is at most the
    threshold, or the spread or the percentage is not positive, nothing is
    recorded or dispatched and the map of active operations is unchanged. *)
Theorem opportunity_threshold_and_spread cfg ops priceData symbol now effs ops' :
  findAndExecuteArbitrageOpportunity cfg ops priceData symbol now = Ok (effs, ops') ->
  (forall o, In (RecordOpportunity o) effs \/ (exists key, In (StartExecution key o) effs) ->
     percentageDifference o = ((sellPrice o - buyPrice o) / buyPrice o * 100)%Q /\
     (ARBITRAGE_THRESHOLD cfg < percentageDifference o)%Q /\
     (buyPrice o < sellPrice o)%Q) /\
  (forall highestBid lowestAsk r1 r2,
     by_bid_desc priceData = highestBid :: r1 ->
     by_ask_asc (by_bid_desc priceData) = lowestAsk :: r2 ->
     let priceDiff := (bestBid highestBid - bestAsk lowestAsk)%Q in
     let pct := (priceDiff / bestAsk lowestAsk * 100)%Q in
     (pct <= ARBITRAGE_THRESHOLD cfg \/ priceDiff <= 0 \/ pct <= 0)%Q ->
     effs = [] /\ ops' = ops).
Proof.
  intros H. split.
  - intros o Hin.
    destruct (findAndExecute_cases cfg ops priceData symbol now effs ops' H)
      as [[-> ->]|(hb & la & r1 & r2 & key & Hb & Ha & Hne & Hthr & Hd & Hp & _ & o0 & Ho0 & Heffs)].
    + destruct Hin as [[]|[k []]].
    + assert (o = o0) as ->.
      { eapply effs_opportunity; [|exact Hin]. destruct Heffs as [[E _]|[E _]]; [left|right]; exact E. }
      subst o0. simpl. split; [reflexivity|]. split; [exact Hthr|].
      apply Qlt_minus_iff. exact Hd.
  - intros hb la r1 r2 Hb Ha. cbv zeta. intros Hbad.
    destruct (findAndExecute_cases cfg ops priceData symbol now effs ops' H)
      as [Hnil|(hb' & la' & r1' & r2' & key & Hb' & Ha' & Hne & Hthr & Hd & Hp & _)]; [exact Hnil|].
    rewrite Hb in Hb'. inversion Hb'; subst. rewrite Ha' in Ha. inversion Ha; subst.
    exfalso. destruct Hbad as [Hbad|[Hbad|Hbad]]; [exact (Qlt_not_le _ _ Hthr Hbad)|exact (Qlt_not_le _ _ Hd Hbad)|exact (Qlt_not_le _ _ Hp Hbad)].
Qed.

(** C2, at Scenario A: the opportunity is produced and the theorem applies. *)
Lemma opportunity_threshold_and_spread_witness :
  exists effs ops',
    findAndExecuteArbitrageOpportunity scenario_cfg ∅ scenario_A_quotes "BTC/USDT" 0 = Ok (effs, ops') /\
    effs <> [] /\
    (forall o, In (RecordOpportunity o) effs \/ (exists key, In (StartExecution key o) effs) ->
       percentageDifference o = ((sellPrice o - buyPrice o) / buyPrice o * 100)%Q /\
       (ARBITRAGE_THRESHOLD scenario_cfg < percentageDifference o)%Q /\
       (buyPrice o < sellPrice o)%Q) /\
    (forall highestBid lowestAsk r1 r2,
       by_bid_desc scenario_A_quotes = highestBid :: r1 ->
       by_ask_asc (by_bid_desc scenario_A_quotes) = lowestAsk :: r2 ->
       let priceDiff := (bestBid highestBid - bestAsk lowestAsk)%Q in
       let pct := (priceDiff / bestAsk lowestAsk * 100)%Q in
       (pct <= ARBITRAGE_THRESHOLD scenario_cfg \/ priceDiff <= 0 \/ pct <= 0)%Q ->
       effs = [] /\ ops' = ∅).
Proof.
  do 2 eexists. split; [vm_compute; reflexivity|]. split; [discriminate|].
  apply (opportunity_threshold_and_spread scenario_cfg ∅ scenario_A_quotes "BTC/USDT" 0).
  vm_compute. reflexivity.
Defined.

(** Scenario B of the specification: with a 2 % threshold the same quotes
    give no opportunity. *)
Example scenario_B_not_detected :
  findAndExecuteArbitrageOpportunity (mkConfig 2 100 3) ∅ scenario_A_quotes "BTC/USDT" 0 = Ok ([], ∅).
Proof. vm_compute. reflexivity. Qed.

(* ------------------------------------------------------------------ *)
(** ** The head of a stable sort *)

Lemma Qle_bool_reflect a b : reflect (a <= b)%Q (Qle_bool a b).
Proof.
  destruct (Qle_bool a b) eqn:E; constructor.
  - apply Qle_bool_iff. exact E.
  - intros H. apply Qle_bool_iff in H. congruence.
Qed.

Lemma Qeq_bool_reflect a b : reflect (a == b)%Q (Qeq_bool a b).
Proof.
  destruct (Qeq_bool a b) eqn:E; constructor.
  - apply Qeq_bool_iff. exact E.
  - intros H. apply Qeq_bool_iff in H. congruence.
Qed.

Ltac qbool :=
  repeat match goal with
  | |- context [Qle_bool ?a ?b] => destruct (Qle_bool_reflect a b)
  | |- context [Qeq_bool ?a ?b] => destruct (Qeq_bool_reflect a b)
  | H : context [Qle_bool ?a ?b] |- _ => destruct (Qle_bool_reflect a b)
  | H : context [Qeq_bool ?a ?b] |- _ => destruct (Qeq_bool_reflect a b)
  end; simpl in *.

Lemma find_ext_in {A} (p q : A -> bool) l :
  (forall z, In z l -> p z = q z) -> find p l = find q l.
Proof.
  induction l as [|x xs IH]; intros H; simpl; [reflexivity|].
  rewrite (H x (or_introl eq_refl)). destruct (q x); [reflexivity|].
  apply IH. intros z Hz. apply H. right. exact Hz.
Qed.

Lemma find_cons_eq {A} (p : A -> bool) x l :
  find p (x :: l) = if p x then Some x else find p l.
Proof. reflexivity. Qed.

Lemma find_split {A} (p : A -> bool) l m :
  find p l = Some m ->
  exists pre post, l = pre ++ m :: post /\ p m = true /\ forall y, In y pre -> p y = false.
Proof.
  induction l as [|x xs IH]; simpl; [discriminate|].
  destruct (p x) eqn:E; intros H.
  - inversion H; subst. exists [], xs. split; [reflexivity|]. split; [exact E|]. intros y [].
  - destruct (IH H) as (pre & post & -> & Hm & Hpre). exists (x :: pre), post.
    split; [reflexivity|]. split; [exact Hm|]. intros y [<-|Hy]; [exact E|]. apply Hpre, Hy.
Qed.

Lemma first_least_ext {A} (le1 le2 : A -> A -> bool) l :
  (forall x y, le1 x y = le2 x y) -> first_least le1 l = first_least le2 l.
Proof.
  intros H. unfold first_least. apply find_ext_in. intros z _.
  induction l as [|y ys IH]; simpl; [reflexivity|]. rewrite H, IH. reflexivity.
Qed.

Section FirstLeast.
Context {A : Type}.
Variable le : A -> A -> bool.
Hypothesis le_refl : forall x, le x x = true.
Hypothesis le_total : forall x y, le x y = false -> le y x = true.
Hypothesis le_trans : forall x y z, le x y = true -> le y z = true -> le x z = true.

Lemma first_least_spec l m :
  first_least le l = Some m -> In m l /\ forall y, In y l -> le m y = true.
Proof.
  unfold first_least. intros H. apply find_some in H as [Hin Hall].
  split; [exact Hin|]. intros y Hy. rewrite forallb_forall in Hall. apply Hall, Hy.
Qed.

Lemma least_exists x xs :
  exists m, In m (x :: xs) /\ forall y, In y (x :: xs) -> le m y = true.
Proof.
  revert x. induction xs as [|y ys IH]; intros x.
  - exists x. split; [left; reflexivity|]. intros z [<-|[]]. apply le_refl.
  - destruct (IH y) as [m [Hin Hall]]. destruct (le x m) eqn:E.
    + exists x. split; [left; reflexivity|].
      intros z [<-|Hz]; [apply le_refl|]. exact (le_trans x m z E (Hall z Hz)).
    + exists m. split; [right; exact Hin|].
      intros z [<-|Hz]; [apply le_total; exact E|apply Hall, Hz].
Qed.

Lemma first_least_nonempty x xs : exists m, first_least le (x :: xs) = Some m.
Proof.
  destruct (least_exists x xs) as [m [Hin Hall]]. unfold first_least.
  destruct (find _ (x :: xs)) as [w|] eqn:Hf; [eauto|]. exfalso.
  apply find_none with (x := m) in Hf; [|exact Hin].
  assert (forallb (le m) (x :: xs) = true) by (apply forallb_forall; exact Hall).
  congruence.
Qed.

(** The first least element of [x :: xs] is [x] when [x] is below the
    first least element of [xs], and that element otherwise. *)
Lemma first_least_cons x xs :
  first_least le (x :: xs) =
  match first_least le xs with
  | None => Some x
  | Some m => if le x m then Some x else Some m
  end.
Proof.
  destruct xs as [|y ys].
  - unfold first_least. simpl. rewrite le_refl. reflexivity.
  - destruct (first_least_nonempty y ys) as [m Hm]. rewrite Hm. pose proof Hm as Hm0.
    apply first_least_spec in Hm as [Hin Hall].
    unfold first_least at 1. rewrite find_cons_eq.
    destruct (le x m) eqn:Hxm.
    + assert (Hx : forallb (le x) (x :: y :: ys) = true).
      { apply forallb_forall. intros z [<-|Hz]; [apply le_refl|].
        apply (le_trans x m z Hxm). apply Hall. exact Hz. }
      rewrite Hx. reflexivity.
    + assert (Hx : forallb (le x) (x :: y :: ys) = false).
      { apply not_true_iff_false. intros Hc. rewrite forallb_forall in Hc.
        rewrite (Hc m (or_intror Hin)) in Hxm. discriminate. }
      rewrite Hx.
      assert (Hmx : le m x = true) by (apply le_total; exact Hxm).
      transitivity (first_least le (y :: ys)).
      * apply find_ext_in. intros z Hz.
        change (forallb (le z) (x :: y :: ys)) with (le z x && forallb (le z) (y :: ys)).
        destruct (forallb (le z) (y :: ys)) eqn:Hzl; [|rewrite !andb_false_r; reflexivity].
        rewrite andb_true_r. apply (le_trans z m x); [|exact Hmx].
        rewrite forallb_forall in Hzl. apply Hzl, Hin.
      * exact Hm0.
Qed.
(** The element found is least, and every element before it is
    strictly greater. *)
Lemma first_least_split l m :
  first_least le l = Some m ->
  exists pre post, l = pre ++ m :: post /\ (forall y, In y l -> le m y = true) /\
    (forall y, In y pre -> le y m = false).
Proof.
  intros H. destruct (first_least_spec l m H) as [_ Hall].
  unfold first_least in H. apply find_split in H as (pre & post & Hl & _ & Hpre).
  exists pre, post. split; [exact Hl|]. split; [exact Hall|].
  intros y Hy. specialize (Hpre y Hy). destruct (le y m) eqn:E; [|reflexivity].
  assert (Hy' : forallb (le y) l = true).
  { apply forallb_forall. intros z Hz. apply le_trans with m; [exact E|apply Hall, Hz]. }
  congruence.
Qed.
End FirstLeast.

Section SortHead.
Context {A : Type}.
Variable cmp : A -> A -> Q.
Let le x y := Qle_bool (cmp x y) 0.
Hypothesis le_refl : forall x, le x x = true.
Hypothesis le_total : forall x y, le x y = false -> le y x = true.
Hypothesis le_trans : forall x y z, le x y = true -> le y z = true -> le x z = true.

Lemma head_insert_by x s :
  hd_error (insert_by cmp x s) =
  match hd_error s with None => Some x | Some h => if le x h then Some x else Some h end.
Proof. destruct s as [|y ys]; simpl; [reflexivity|]. unfold le. destruct (Qle_bool _ 0); reflexivity. Qed.

(** The first element of the sorted array is the first least element
    of the input. *)
Lemma head_js_sort l : hd_error (js_sort cmp l) = first_least le l.
Proof.
  induction l as [|x xs IH]; [reflexivity|].
  simpl js_sort. rewrite head_insert_by, IH.
  rewrite (first_least_cons le le_refl le_total le_trans). reflexivity.
Qed.
End SortHead.

Lemma in_insert_by {A} (cmp : A -> A -> Q) x s z : In z (insert_by cmp x s) <-> z = x \/ In z s.
Proof.
  induction s as [|y ys IH]; simpl.
  - split; intros [H|H]; subst; auto; contradiction.
  - destruct (Qle_bool (cmp x y) 0); simpl.
    + split; intros H; repeat destruct H as [H|H]; subst; auto.
    + rewrite IH. split; intros H; repeat destruct H as [H|H]; subst; auto.
Qed.

Lemma by_bid_desc_cons x l : by_bid_desc (x :: l) = insert_by (fun a b => (bestBid b - bestBid a)%Q) x (by_bid_desc l).
Proof. reflexivity. Qed.

Lemma by_bid_desc_sorted l : StronglySorted bid_desc (by_bid_desc l).
Proof.
  induction l as [|x xs IH]; [constructor|]. rewrite by_bid_desc_cons.
  generalize dependent (by_bid_desc xs). intros s Hs.
  induction s as [|y ys IHs]; simpl.
  - constructor; constructor.
  - inversion Hs as [|y' ys' Hys Hy]; subst.
    destruct (Qle_bool_reflect (bestBid y - bestBid x) 0) as [Hle|Hlt].
    + constructor; [exact Hs|]. constructor; [unfold bid_desc; lra|].
      apply List.Forall_forall. intros z Hz. rewrite List.Forall_forall in Hy.
      specialize (Hy z Hz). unfold bid_desc in *. lra.
    + constructor; [apply IHs; exact Hys|]. apply List.Forall_forall. intros z Hz.
      apply in_insert_by in Hz as [->|Hz]; unfold bid_desc.
      * lra.
      * rewrite List.Forall_forall in Hy. apply Hy, Hz.
Qed.


Lemma ask_le_iff x y : ask_le x y = true <-> (bestAsk x <= bestAsk y)%Q.
Proof. unfold ask_le. rewrite Qle_bool_iff. lra. Qed.

Lemma bid_le_iff x y : bid_le x y = true <-> (bestBid y <= bestBid x)%Q.
Proof. unfold bid_le. rewrite Qle_bool_iff. lra. Qed.

Lemma ask_then_bid_le_iff x y :
  ask_then_bid_le x y = true <->
  ((bestAsk x < bestAsk y)%Q \/ ((bestAsk x == bestAsk y)%Q /\ (bestBid y <= bestBid x)%Q)).
Proof.
  unfold ask_then_bid_le. rewrite orb_true_iff, andb_true_iff, negb_true_iff, Qeq_bool_iff, Qle_bool_iff.
  split; (intros [H|H]; [left|right]).
  - apply Qnot_le_lt. intros Hc. apply Qle_bool_iff in Hc. congruence.
  - exact H.
  - destruct (Qle_bool_reflect (bestAsk y) (bestAsk x)); [lra|reflexivity].
  - exact H.
Qed.

Ltac bool_to_Q :=
  repeat match goal with
  | H : ask_le _ _ = true |- _ => apply ask_le_iff in H
  | H : bid_le _ _ = true |- _ => apply bid_le_iff in H
  | H : ask_then_bid_le _ _ = true |- _ => apply ask_then_bid_le_iff in H
  | H : ask_le ?x ?y = false |- _ =>
      assert (~ (bestAsk x <= bestAsk y)%Q) by (rewrite <- ask_le_iff; congruence); clear H
  | H : bid_le ?x ?y = false |- _ =>
      assert (~ (bestBid y <= bestBid x)%Q) by (rewrite <- bid_le_iff; congruence); clear H
  | H : ask_then_bid_le ?x ?y = false |- _ =>
      assert (~ ((bestAsk x < bestAsk y)%Q \/ ((bestAsk x == bestAsk y)%Q /\ (bestBid y <= bestBid x)%Q)))
        by (rewrite <- ask_then_bid_le_iff; congruence); clear H
  end.

Lemma ask_le_preorder :
  (forall x, ask_le x x = true) /\ (forall x y, ask_le x y = false -> ask_le y x = true) /\
  (forall x y z, ask_le x y = true -> ask_le y z = true -> ask_le x z = true).
Proof.
  split; [|split]; intros; bool_to_Q; rewrite ?ask_le_iff; lra.
Qed.

Lemma bid_le_preorder :
  (forall x, bid_le x x = true) /\ (forall x y, bid_le x y = false -> bid_le y x = true) /\
  (forall x y z, bid_le x y = true -> bid_le y z = true -> bid_le x z = true).
Proof.
  split; [|split]; intros; bool_to_Q; rewrite ?bid_le_iff; lra.
Qed.

Lemma ask_then_bid_le_preorder :
  (forall x, ask_then_bid_le x x = true) /\
  (forall x y, ask_then_bid_le x y = false -> ask_then_bid_le y x = true) /\
  (forall x y z, ask_then_bid_le x y = true -> ask_then_bid_le y z = true -> ask_then_bid_le x z = true).
Proof.
  split; [|split]; intros; bool_to_Q; rewrite ?ask_then_bid_le_iff.
  - right. split; lra.
  - assert (Hn1 : ~ (bestAsk x < bestAsk y)%Q) by tauto.
    assert (Hn2 : ~ ((bestAsk x == bestAsk y)%Q /\ (bestBid y <= bestBid x)%Q)) by tauto.
    destruct (Qlt_le_dec (bestAsk y) (bestAsk x)) as [q|q]; [left; exact q|].
    assert (Heq : (bestAsk y == bestAsk x)%Q) by (apply Qle_antisym; lra).
    right. split; [exact Heq|].
    assert (~ (bestBid y <= bestBid x)%Q) by (intros Hb; apply Hn2; split; [lra|exact Hb]).
    lra.
  - destruct H as [H|[H1 H2]]; destruct H0 as [H0|[H3 H4]].
    + left. lra.
    + left. lra.
    + left. lra.
    + right. split; lra.
Qed.

Lemma insert_by_cons {A} (cmp : A -> A -> Q) x y ys :
  insert_by cmp x (y :: ys) = if Qle_bool (cmp x y) 0 then x :: y :: ys else y :: insert_by cmp x ys.
Proof. reflexivity. Qed.

Ltac split_ifs :=
  repeat (cbv iota beta;
    match goal with |- context [if ?b then _ else _] => destruct b eqn:? end).

(** Inserting a quote into a bid-descending array: the first least ask
    of the result is decided by the lower ask, then by the higher bid. *)
Lemma first_least_ask_insert S x :
  StronglySorted bid_desc S ->
  first_least ask_le (insert_by (fun a b => (bestBid b - bestBid a)%Q) x S) =
  match first_least ask_le S with
  | None => Some x
  | Some m => if ask_then_bid_le x m then Some x else Some m
  end.
Proof.
  destruct ask_le_preorder as [Ar [At Atr]].
  induction S as [|y ys IH]; intros Hs.
  - simpl insert_by. rewrite (first_least_cons _ Ar At Atr x []). reflexivity.
  - inversion Hs as [|y' ys' Hys Hy]; subst.
    rewrite insert_by_cons. change (Qle_bool _ 0) with (bid_le x y).
    destruct (bid_le x y) eqn:Exy.
    + rewrite (first_least_cons _ Ar At Atr x (y :: ys)).
      destruct (first_least_nonempty _ Ar At Atr y ys) as [m Hm]. rewrite Hm.
      apply first_least_spec in Hm as [Hin _].
      assert (Hbm : (bestBid m <= bestBid y)%Q).
      { destruct Hin as [<-|Hin]; [lra|]. rewrite List.Forall_forall in Hy. apply (Hy m Hin). }
      split_ifs; try reflexivity; exfalso; bool_to_Q; lra.
    + rewrite (first_least_cons _ Ar At Atr y (insert_by _ x ys)), (IH Hys),
        (first_least_cons _ Ar At Atr y ys).
      destruct (first_least ask_le ys) as [m|] eqn:Hm.
      * apply first_least_spec in Hm as [Hin _].
        assert (Hbm : (bestBid m <= bestBid y)%Q).
        { rewrite List.Forall_forall in Hy. apply (Hy m Hin). }
        split_ifs; try reflexivity; exfalso; bool_to_Q; lra.
      * split_ifs; try reflexivity; exfalso; bool_to_Q; lra.
Qed.

Lemma first_least_ask_by_bid l :
  first_least ask_le (by_bid_desc l) = first_min_ask_max_bid l.
Proof.
  destruct ask_then_bid_le_preorder as [Lr [Lt Ltr]].
  unfold first_min_ask_max_bid.
  induction l as [|x xs IH]; [reflexivity|].
  rewrite by_bid_desc_cons, first_least_ask_insert by apply by_bid_desc_sorted.
  rewrite IH, (first_least_cons _ Lr Lt Ltr). reflexivity.
Qed.

Lemma first_max_bid_eq l : first_max_bid l = first_least bid_le l.
Proof.
  unfold first_max_bid. apply first_least_ext. intros x y. unfold bid_le.
  destruct (Qle_bool_reflect (bestBid y - bestBid x) 0), (Qle_bool_reflect (bestBid y) (bestBid x));
    first [reflexivity | exfalso; lra].
Qed.

(** [highestBid = priceData[0]] after the bid sort. *)
Lemma by_bid_desc_head l : hd_error (by_bid_desc l) = first_max_bid l.
Proof.
  destruct bid_le_preorder as [Br [Bt Btr]].
  unfold by_bid_desc. rewrite (head_js_sort _ Br Bt Btr), first_max_bid_eq. reflexivity.
Qed.

(** [lowestAsk = priceData[0]] after the ask sort of the bid-sorted array. *)
Lemma by_ask_asc_head l : hd_error (by_ask_asc (by_bid_desc l)) = first_min_ask_max_bid l.
Proof.
  destruct ask_le_preorder as [Ar [At Atr]].
  unfold by_ask_asc. rewrite (head_js_sort _ Ar At Atr).
  apply first_least_ask_by_bid.
Qed.

(** C8 (amended): the sell venue is the quote with the highest bid, the
    first one in input order among equal bids; the buy venue is the quote
    with the lowest ask, among equal asks the one with the highest bid, and
    among those the first one in input order.  The selection depends on
    the quote array alone. *)
Theorem detector_tie_break cfg ops priceData symbol now :
  hd_error (by_bid_desc priceData) = first_max_bid priceData /\
  hd_error (by_ask_asc (by_bid_desc priceData)) = first_min_ask_max_bid priceData /\
  (forall m, first_max_bid priceData = Some m ->
     exists pre post, priceData = pre ++ m :: post /\
       (forall y, In y priceData -> (bestBid y <= bestBid m)%Q) /\
       (forall y, In y pre -> (bestBid y < bestBid m)%Q)) /\
  (forall m, first_min_ask_max_bid priceData = Some m ->
     exists pre post, priceData = pre ++ m :: post /\
       (forall y, In y priceData ->
          (bestAsk m < bestAsk y)%Q \/ ((bestAsk m == bestAsk y)%Q /\ (bestBid y <= bestBid m)%Q)) /\
       (forall y, In y pre ->
          (bestAsk m < bestAsk y)%Q \/ ((bestAsk m == bestAsk y)%Q /\ (bestBid y < bestBid m)%Q))) /\
  (forall effs ops' o,
     findAndExecuteArbitrageOpportunity cfg ops priceData symbol now = Ok (effs, ops') ->
     In (RecordOpportunity o) effs ->
     option_map pd_exchange (first_max_bid priceData) = Some (sellExchange o) /\
     option_map pd_exchange (first_min_ask_max_bid priceData) = Some (buyExchange o)).
Proof.
  destruct bid_le_preorder as [Br [Bt Btr]].
  destruct ask_then_bid_le_preorder as [Lr [Lt Ltr]].
  split; [apply by_bid_desc_head|]. split; [apply by_ask_asc_head|]. split; [|split].
  - intros m Hm. rewrite first_max_bid_eq in Hm.
    destruct (first_least_split _ Btr _ _ Hm) as (pre & post & Hl & Hall & Hpre).
    exists pre, post. split; [exact Hl|]. split.
    + intros y Hy. apply bid_le_iff, Hall, Hy.
    + intros y Hy. specialize (Hpre y Hy). bool_to_Q. lra.
  - intros m Hm. unfold first_min_ask_max_bid in Hm.
    destruct (first_least_split _ Ltr _ _ Hm) as (pre & post & Hl & Hall & Hpre).
    exists pre, post. split; [exact Hl|]. split.
    + intros y Hy. apply ask_then_bid_le_iff, Hall, Hy.
    + intros y Hy. assert (Hin : In y priceData) by (rewrite Hl; apply in_or_app; left; exact Hy).
      specialize (Hpre y Hy). specialize (Hall y Hin). bool_to_Q.
      destruct Hall as [Hlt|[Heq Hle]]; [left; exact Hlt|].
      right. split; [exact Heq|].
      apply Qnot_le_lt. intros Hc. apply H. right. split; [apply Qeq_sym, Heq|exact Hc].
  - intros effs ops' o H Hin.
    destruct (findAndExecute_cases cfg ops priceData symbol now effs ops' H)
      as [[-> ->]|(hb & la & r1 & r2 & key & Hb & Ha & _ & _ & _ & _ & _ & o0 & Ho0 & Heffs)].
    + destruct Hin.
    + assert (Ho : o = o0).
      { apply (effs_opportunity o o0 key effs); [destruct Heffs as [[He _]|[He _]]; auto|left; exact Hin]. }
      subst o o0. rewrite <- by_bid_desc_head, <- by_ask_asc_head, Ha, Hb. simpl. split; reflexivity.
Qed.

(** C8 (counterexample): A and B share the lowest ask 5; A comes first in
    the input, but B, which has the higher bid, is chosen as the buy
    venue. *)
Lemma detector_tie_break_counterexample :
  first_min_ask tie_quotes = Some (mkPriceData "A" 1 5) /\
  match findAndExecuteArbitrageOpportunity scenario_cfg ∅ tie_quotes "BTC/USDT" 0 with
  | Ok (RecordOpportunity o :: _, _) => buyExchange o = "B" /\ sellExchange o = "C"
  | _ => False
  end.
Proof. split; vm_compute; [reflexivity|split; reflexivity]. Qed.

Section DispatchFacts.
Variable cfg : Config.

Lemma ops_run_app ops evs1 evs2 :
  ops_run cfg ops (evs1 ++ evs2) =
  let '(oks1, ops1) := ops_run cfg ops evs1 in
  let '(oks2, ops2) := ops_run cfg ops1 evs2 in (oks1 ++ oks2, ops2).
Proof.
  revert ops. induction evs1 as [|ev evs1 IH]; intros ops; simpl.
  - destruct (ops_run cfg ops evs2); reflexivity.
  - destruct ev as [k n|k|n].
    + destruct (admit_dispatch cfg ops k n) as [ok ops1]. rewrite IH.
      destruct (ops_run cfg ops1 evs1) as [oks1 o1].
      destruct (ops_run cfg o1 evs2). reflexivity.
    + apply IH.
    + apply IH.
Qed.

Lemma admit_dispatch_present ops key now t :
  ops !! key = Some t -> admit_dispatch cfg ops key now = (false, ops).
Proof. intros H. unfold admit_dispatch. rewrite H. reflexivity. Qed.

(** An entry stays in the map through any history that neither removes
    its key nor sweeps it as stale. *)
Lemma ops_run_keeps key t evs ops :
  ops !! key = Some t ->
  ~ In (CooldownRemove key) evs ->
  (forall s, In (StaleSweep s) evs -> (s - t <= 300000)%Z) ->
  (snd (ops_run cfg ops evs)) !! key = Some t.
Proof.
  revert ops. induction evs as [|ev evs IH]; intros ops Hk Hnr Hsw; simpl; [exact Hk|].
  destruct ev as [k n|k|n].
  - destruct (admit_dispatch cfg ops k n) as [ok ops1] eqn:Had.
    destruct (ops_run cfg ops1 evs) as [oks ops2] eqn:Hr.
    change ops2 with (snd (oks, ops2)). rewrite <- Hr.
    apply IH.
    + unfold admit_dispatch in Had.
      destruct (ops !! k) eqn:Hk'; simpl in Had; [inversion Had; subst; exact Hk|].
      destruct (Z.ltb _ _); inversion Had; subst; [|exact Hk].
      rewrite lookup_insert_ne; [exact Hk|]. intros ->. congruence.
    + intros Hin. apply Hnr. right. exact Hin.
    + intros s Hs. apply Hsw. right. exact Hs.
  - apply IH.
    + unfold cooldown_remove. rewrite lookup_delete_ne; [exact Hk|].
      intros ->. apply Hnr. left. reflexivity.
    + intros Hin. apply Hnr. right. exact Hin.
    + intros s Hs. apply Hsw. right. exact Hs.
  - apply IH.
    + unfold cleanupStaleOperations. apply map_lookup_filter_Some_2; [exact Hk|].
      simpl. specialize (Hsw n (or_introl eq_refl)). lia.
    + intros Hin. apply Hnr. right. exact Hin.
    + intros s Hs. apply Hsw. right. exact Hs.
Qed.
End DispatchFacts.

(** C5 (amended): a dispatch whose key is absent while fewer than
    [MAX_CONCURRENT_TRADES] operations are active inserts the key and starts
    the execution; a dispatch is rejected while its key is present and
    whenever the active count has reached [MAX_CONCURRENT_TRADES]; so a
    second dispatch of the key is rejected as long as neither the cooldown
    removal nor the stale sweep (entries older than 300000 ms) has removed
    the key in between. *)
Theorem dispatch_dedup_bounded cfg :
  (forall ops key now,
     ops !! key = None -> (Z.of_nat (size ops) < MAX_CONCURRENT_TRADES cfg)%Z ->
     admit_dispatch cfg ops key now = (true, <[key := now]> ops)) /\
  (forall ops key now t,
     ops !! key = Some t -> admit_dispatch cfg ops key now = (false, ops)) /\
  (forall ops key now,
     (MAX_CONCURRENT_TRADES cfg <= Z.of_nat (size ops))%Z ->
     admit_dispatch cfg ops key now = (false, ops)) /\
  (forall ops key now evs now2,
     ops !! key = None -> (Z.of_nat (size ops) < MAX_CONCURRENT_TRADES cfg)%Z ->
     ~ In (CooldownRemove key) evs ->
     (forall s, In (StaleSweep s) evs -> (s - now <= 300000)%Z) ->
     exists oks ops',
       ops_run cfg ops (Dispatch key now :: evs ++ [Dispatch key now2]) = (true :: oks ++ [false], ops')).
Proof.
  split; [|split; [|split]].
  - intros ops key now Hk Hs. unfold admit_dispatch. rewrite Hk.
    simpl. apply Z.ltb_lt in Hs. rewrite Hs. reflexivity.
  - intros ops key now t Hk. apply (admit_dispatch_present cfg ops key now t Hk).
  - intros ops key now Hs. unfold admit_dispatch.
    assert (Hf : Z.ltb (Z.of_nat (size ops)) (MAX_CONCURRENT_TRADES cfg) = false) by (apply Z.ltb_ge; lia).
    rewrite Hf, andb_false_r. reflexivity.
  - intros ops key now evs now2 Hk Hs Hnr Hsw.
    assert (Had : admit_dispatch cfg ops key now = (true, <[key := now]> ops)).
    { unfold admit_dispatch. rewrite Hk. simpl. apply Z.ltb_lt in Hs. rewrite Hs. reflexivity. }
    simpl. rewrite Had, ops_run_app.
    pose proof (ops_run_keeps cfg key now evs (<[key := now]> ops)) as Hkeep.
    destruct (ops_run cfg (<[key := now]> ops) evs) as [oks1 ops1] eqn:Hr. simpl in Hkeep.
    rewrite (lookup_insert_eq ops key now) in Hkeep.
    specialize (Hkeep eq_refl Hnr Hsw). simpl.
    rewrite (admit_dispatch_present cfg ops1 key now2 now Hkeep).
    exists oks1, ops1. reflexivity.
Qed.

(** C5 (counterexample): the stale sweep at 300001 ms evicts the key of the
    operation dispatched at 0 before its cooldown removal, and the second
    dispatch of the same key at 300002 ms is admitted. *)
Lemma dispatch_dedup_counterexample :
  fst (ops_run scenario_cfg ∅
         [Dispatch "BTC/USDT-V1-V2" 0; StaleSweep 300001; Dispatch "BTC/USDT-V1-V2" 300002])
  = [true; true].
Proof. vm_compute. reflexivity. Qed.

Section ExecuteFacts.

Lemma leg_withRetry_ok leg v :
  fst (leg_withRetry leg) = Ok v -> leg 0 = Ok v \/ leg 1 = Ok v.
Proof.
  unfold leg_withRetry, withRetry. simpl.
  destruct (leg 0) as [v0|e0] eqn:E0; simpl.
  - intros H. inversion H; subst. left. reflexivity.
  - destruct (leg_retry_condition e0 0); simpl; [|discriminate].
    destruct (leg 1) as [v1|e1] eqn:E1; simpl; [|discriminate].
    intros H. inversion H; subst. right. reflexivity.
Qed.

Lemma retry_to_exec_no_sell tr i :
  ~ In (SellCall i) (map (retry_to_exec BuyCall) tr).
Proof. rewrite in_map_iff. intros [[j|d] [Hj _]]; discriminate. Qed.

Lemma retry_to_exec_no_trade call tr t :
  (forall i, call i <> RecordTrade t) -> ~ In (RecordTrade t) (map (retry_to_exec call) tr).
Proof. intros Hc. rewrite in_map_iff. intros [[j|d] [Hj _]]; [apply (Hc j Hj)|discriminate]. Qed.

Lemma leg_withRetry_first_none leg :
  leg 0 = Ok None -> leg_withRetry leg = (Ok None, [Invoke 0]).
Proof. intros H. unfold leg_withRetry, withRetry. simpl. rewrite H. reflexivity. Qed.

End ExecuteFacts.

(** C6: when no call of [executeBuy] yields an order, [executeArbitrage]
    throws, never calls [executeSell] and hands no trade to [recordTrade]. *)
Theorem buy_failure_no_sell buyEx sellEx symbol amount opp buy sell :
  (forall i, match buy i with Ok (Some _) => False | _ => True end) ->
  (exists e, fst (executeArbitrage buyEx sellEx symbol amount opp buy sell) = Throw e) /\
  (forall i, ~ In (SellCall i) (snd (executeArbitrage buyEx sellEx symbol amount opp buy sell))) /\
  (forall t, ~ In (RecordTrade t) (snd (executeArbitrage buyEx sellEx symbol amount opp buy sell))).
Proof.
  intros Hbuy.
  assert (Hbody : exists e tr, executeArbitrage_body buyEx sellEx symbol amount opp buy sell = (Throw e, tr) /\
            (forall i, ~ In (SellCall i) tr) /\ (forall t, ~ In (RecordTrade t) tr)).
  { unfold executeArbitrage_body.
    destruct (arb_validate buyEx sellEx symbol amount opp) as [[[bid sid] base]|e].
    2: { exists e, []. split; [reflexivity|]. split; intros ? []. }
    destruct (leg_withRetry buy) as [rb trb] eqn:Hrb.
    assert (Hns : forall i, ~ In (SellCall i) ([LogE LInfo ("Executing arbitrage trade for " ++ symbol)%string;
                    LogE LInfo ("Executing buy order for " ++ symbol ++ " on " ++ bid)%string]
                    ++ map (retry_to_exec BuyCall) trb)).
    { intros i Hin. apply in_app_or in Hin as [Hin|Hin].
      - simpl in Hin. destruct Hin as [H|[H|[]]]; discriminate.
      - apply (retry_to_exec_no_sell trb i Hin). }
    assert (Hnt : forall t, ~ In (RecordTrade t) ([LogE LInfo ("Executing arbitrage trade for " ++ symbol)%string;
                    LogE LInfo ("Executing buy order for " ++ symbol ++ " on " ++ bid)%string]
                    ++ map (retry_to_exec BuyCall) trb)).
    { intros t Hin. apply in_app_or in Hin as [Hin|Hin].
      - simpl in Hin. destruct Hin as [H|[H|[]]]; discriminate.
      - revert Hin. apply retry_to_exec_no_trade. intros i. discriminate. }
    destruct rb as [[bo|]|e].
    - exfalso. assert (Hf : fst (leg_withRetry buy) = Ok (Some bo)) by (rewrite Hrb; reflexivity).
      destruct (leg_withRetry_ok buy _ Hf) as [H|H]; [specialize (Hbuy 0)|specialize (Hbuy 1)];
        rewrite H in Hbuy; exact Hbuy.
    - eexists _, _. split; [reflexivity|]. split; [exact Hns|exact Hnt].
    - eexists _, _. split; [reflexivity|]. split; [exact Hns|exact Hnt]. }
  destruct Hbody as (e & tr & Heq & Hns & Hnt).
  unfold executeArbitrage. rewrite Heq. simpl.
  split; [eexists; reflexivity|]. split.
  - intros i Hin. apply in_app_or in Hin as [Hin|[H|[]]]; [exact (Hns i Hin)|discriminate].
  - intros t Hin. apply in_app_or in Hin as [Hin|[H|[]]]; [exact (Hnt t Hin)|discriminate].
Qed.

Lemma buy_failure_no_sell_witness :
  (forall i, match (fun _ : nat => @Ok (option Order) None) i with Ok (Some _) => False | _ => True end) /\
  (exists e, fst (executeArbitrage (Some "binance") (Some "kraken") "BTC/USDT" 100
                   (mkOpportunity "BTC/USDT" "binance" "kraken" 100 101 1 1 1 0)
                   (fun _ => Ok None) (fun _ => Ok (Some (mkOrder (Some "s1"))))) = Throw e) /\
  (forall i, ~ In (SellCall i) (snd (executeArbitrage (Some "binance") (Some "kraken") "BTC/USDT" 100
                   (mkOpportunity "BTC/USDT" "binance" "kraken" 100 101 1 1 1 0)
                   (fun _ => Ok None) (fun _ => Ok (Some (mkOrder (Some "s1"))))))) /\
  (forall t, ~ In (RecordTrade t) (snd (executeArbitrage (Some "binance") (Some "kraken") "BTC/USDT" 100
                   (mkOpportunity "BTC/USDT" "binance" "kraken" 100 101 1 1 1 0)
                   (fun _ => Ok None) (fun _ => Ok (Some (mkOrder (Some "s1"))))))).
Proof.
  split; [intros i; simpl; exact I|].
  apply (buy_failure_no_sell (Some "binance") (Some "kraken") "BTC/USDT" 100
           (mkOpportunity "BTC/USDT" "binance" "kraken" 100 101 1 1 1 0)
           (fun _ => Ok None) (fun _ => Ok (Some (mkOrder (Some "s1"))))).
  intros i. simpl. exact I.
Defined.

(** C7: when the inputs pass the checks, [withRetry] gets an order from
    [executeBuy], and the first call of [executeSell] yields no order (what
    [executeSell] returns on any failure), [executeArbitrage] throws the
    [SELL_ORDER_FAILED_AFTER_BUY] error (not the [BUY_ORDER_FAILED] one),
    logs the CRITICAL line at [error], the most severe level, and calls
    [executeSell] exactly once: after that call it only logs. *)
Theorem sell_failure_after_buy buyEx sellEx symbol amount opp buy sell bid sid baseAmount buyOrder :
  arb_validate buyEx sellEx symbol amount opp = Ok (bid, sid, baseAmount) ->
  fst (leg_withRetry buy) = Ok (Some buyOrder) ->
  sell 0 = Ok None ->
  fst (executeArbitrage buyEx sellEx symbol amount opp buy sell) =
    Throw (mkError ArbitrageErrorC "SELL_ORDER_FAILED_AFTER_BUY"
             ("Failed to execute sell order on " ++ sid ++ " after successful buy")%string) /\
  In (LogE LError ("CRITICAL: Buy order succeeded but sell order failed for " ++ symbol)%string)
     (snd (executeArbitrage buyEx sellEx symbol amount opp buy sell)) /\
  (forall l, level_rank l <= level_rank LError) /\
  (exists pre post,
     snd (executeArbitrage buyEx sellEx symbol amount opp buy sell) = pre ++ SellCall 0 :: post /\
     (forall i, ~ In (SellCall i) pre) /\
     Forall (fun ev => exists l m, ev = LogE l m) post).
Proof.
  intros Hv Hb Hs.
  unfold executeArbitrage, executeArbitrage_body. rewrite Hv.
  destruct (leg_withRetry buy) as [rb trb] eqn:Hrb. simpl in Hb. subst rb.
  rewrite (leg_withRetry_first_none sell Hs).
  set (start := [LogE LInfo ("Executing arbitrage trade for " ++ symbol)%string;
                 LogE LInfo ("Executing buy order for " ++ symbol ++ " on " ++ bid)%string]).
  set (sellLog := LogE LInfo ("Executing sell order for " ++ symbol ++ " on " ++ sid)%string).
  set (crit := LogE LError ("CRITICAL: Buy order succeeded but sell order failed for " ++ symbol)%string).
  set (err := mkError ArbitrageErrorC "SELL_ORDER_FAILED_AFTER_BUY"
                ("Failed to execute sell order on " ++ sid ++ " after successful buy")%string).
  assert (He : enhanceError err = err) by reflexivity.
  cbv beta iota. rewrite He. cbn [fst snd]. split; [reflexivity|]. split; [|split].
  - apply in_or_app. left. apply in_or_app. right. left. reflexivity.
  - intros []; simpl; lia.
  - exists ((start ++ map (retry_to_exec BuyCall) trb) ++ [sellLog]),
      [crit; LogE LError ("Error executing arbitrage: " ++ err_message err)%string].
    split; [|split].
    + simpl map. rewrite <- !app_assoc. reflexivity.
    + intros i Hin. apply in_app_or in Hin as [Hin|[H|[]]]; [|discriminate].
      apply in_app_or in Hin as [Hin|Hin].
      * destruct Hin as [H|[H|[]]]; discriminate.
      * exact (retry_to_exec_no_sell trb i Hin).
    + constructor; [do 2 eexists; reflexivity|]. constructor; [do 2 eexists; reflexivity|]. constructor.
Qed.

Lemma sell_failure_after_buy_witness :
  arb_validate (Some "binance") (Some "kraken") "BTC/USDT" 100
    (mkOpportunity "BTC/USDT" "binance" "kraken" 100 101 1 1 1 0) = Ok ("binance", "kraken", 100 / 100)%Q /\
  fst (leg_withRetry (fun _ => Ok (Some (mkOrder (Some "b1"))))) = Ok (Some (mkOrder (Some "b1"))) /\
  (fun _ : nat => @Ok (option Order) None) 0 = Ok None /\
  fst (executeArbitrage (Some "binance") (Some "kraken") "BTC/USDT" 100
         (mkOpportunity "BTC/USDT" "binance" "kraken" 100 101 1 1 1 0)
         (fun _ => Ok (Some (mkOrder (Some "b1")))) (fun _ => Ok None)) =
    Throw (mkError ArbitrageErrorC "SELL_ORDER_FAILED_AFTER_BUY"
             ("Failed to execute sell order on " ++ "kraken" ++ " after successful buy")%string) /\
  In (LogE LError ("CRITICAL: Buy order succeeded but sell order failed for " ++ "BTC/USDT")%string)
     (snd (executeArbitrage (Some "binance") (Some "kraken") "BTC/USDT" 100
         (mkOpportunity "BTC/USDT" "binance" "kraken" 100 101 1 1 1 0)
         (fun _ => Ok (Some (mkOrder (Some "b1")))) (fun _ => Ok None))) /\
  (forall l, level_rank l <= level_rank LError) /\
  (exists pre post,
     snd (executeArbitrage (Some "binance") (Some "kraken") "BTC/USDT" 100
         (mkOpportunity "BTC/USDT" "binance" "kraken" 100 101 1 1 1 0)
         (fun _ => Ok (Some (mkOrder (Some "b1")))) (fun _ => Ok None)) = pre ++ SellCall 0 :: post /\
     (forall i, ~ In (SellCall i) pre) /\
     Forall (fun ev => exists l m, ev = LogE l m) post).
Proof.
  split; [vm_compute; reflexivity|]. split; [vm_compute; reflexivity|]. split; [reflexivity|].
  apply (sell_failure_after_buy (Some "binance") (Some "kraken") "BTC/USDT" 100
           (mkOpportunity "BTC/USDT" "binance" "kraken" 100 101 1 1 1 0)
           (fun _ => Ok (Some (mkOrder (Some "b1")))) (fun _ => Ok None)
           "binance" "kraken" (100 / 100)%Q (mkOrder (Some "b1"))).
  - vm_compute. reflexivity.
  - vm_compute. reflexivity.
  - reflexivity.
Defined.

Section ExchangeFacts.

Lemma fetchOrderBook_catch breakers exchange symbol limit now tend client :
  (exists ob, fst (fetchOrderBook breakers exchange symbol limit now tend client) = Ok (Some ob) /\
              fst (fetchOrderBook_try breakers exchange symbol limit now tend client) = Ok ob) \/
  (fst (fetchOrderBook breakers exchange symbol limit now tend client) = Ok None /\
   exists e, fst (fetchOrderBook_try breakers exchange symbol limit now tend client) = Throw e).
Proof.
  unfold fetchOrderBook.
  destruct (fetchOrderBook_try breakers exchange symbol limit now tend client) as [[ob|e] bs]; simpl; eauto.
Qed.

Lemma execute_order_catch side breakers enableTrading exchange symbol amount now tend client :
  (exists o, fst (execute_order side breakers enableTrading exchange symbol amount now tend client) = Ok (Some o) /\
             fst (execute_order_try side breakers enableTrading exchange symbol amount now tend client) = Ok o) \/
  (fst (execute_order side breakers enableTrading exchange symbol amount now tend client) = Ok None /\
   exists e, fst (execute_order_try side breakers enableTrading exchange symbol amount now tend client) = Throw e).
Proof.
  unfold execute_order.
  destruct (execute_order_try side breakers enableTrading exchange symbol amount now tend client) as [[o|e] bs];
    simpl; eauto.
Qed.

Lemma fetchOrderBook_never_throws breakers exchange symbol limit now tend client e :
  fst (fetchOrderBook breakers exchange symbol limit now tend client) <> Throw e.
Proof.
  destruct (fetchOrderBook_catch breakers exchange symbol limit now tend client) as [[ob [H _]]|[H _]];
    rewrite H; discriminate.
Qed.

End ExchangeFacts.

(** C10: [fetchOrderBook], [executeBuy] and [executeSell] never throw:
    whatever the inputs, the breakers and the client outcomes, they return
    the order book or order their [try] block produced, and [null] whenever
    that block throws, whatever the error. *)
Theorem exchange_ops_total :
  (forall breakers exchange symbol limit now tend client,
     (exists ob, fst (fetchOrderBook breakers exchange symbol limit now tend client) = Ok (Some ob) /\
                 fst (fetchOrderBook_try breakers exchange symbol limit now tend client) = Ok ob) \/
     (fst (fetchOrderBook breakers exchange symbol limit now tend client) = Ok None /\
      exists e, fst (fetchOrderBook_try breakers exchange symbol limit now tend client) = Throw e)) /\
  (forall breakers enableTrading exchange symbol amount now tend client,
     (exists o, fst (executeBuy breakers enableTrading exchange symbol amount now tend client) = Ok (Some o) /\
                fst (execute_order_try "buy" breakers enableTrading exchange symbol amount now tend client) = Ok o) \/
     (fst (executeBuy breakers enableTrading exchange symbol amount now tend client) = Ok None /\
      exists e, fst (execute_order_try "buy" breakers enableTrading exchange symbol amount now tend client) = Throw e)) /\
  (forall breakers enableTrading exchange symbol amount now tend client,
     (exists o, fst (executeSell breakers enableTrading exchange symbol amount now tend client) = Ok (Some o) /\
                fst (execute_order_try "sell" breakers enableTrading exchange symbol amount now tend client) = Ok o) \/
     (fst (executeSell breakers enableTrading exchange symbol amount now tend client) = Ok None /\
      exists e, fst (execute_order_try "sell" breakers enableTrading exchange symbol amount now tend client) = Throw e)).
Proof.
  split; [|split]; intros.
  - apply fetchOrderBook_catch.
  - apply execute_order_catch.
  - apply execute_order_catch.
Qed.

(** A refused connection, which [withRetry] retries, and a pair the
    exchange does not list, which it does not, both come back as [null]. *)
Example exchange_errors_collapse :
  fst (fetchOrderBook breakers0 (Some binance) "BTC/USDT" 5 0 3000 refused) = Ok None /\
  fst (fetchOrderBook breakers0 (Some binance) "ETH/USDT" 5 0 3000 refused) = Ok None /\
  fst (fetchOrderBook_try breakers0 (Some binance) "BTC/USDT" 5 0 3000 refused) = Throw econnrefused /\
  fst (fetchOrderBook_try breakers0 (Some binance) "ETH/USDT" 5 0 3000 refused)
    = Throw (market_not_available binance "ETH/USDT").
Proof. vm_compute. repeat split. Qed.

Ltac same_entry H :=
  match type of H with
  | _ !! _ = Some ?h' => exists h'; split; [exact H|]; split; [auto|left; reflexivity]
  end.

(** C9: the price-fetch path never marks an exchange unhealthy and never
    raises its error count: every entry of [exchangeHealth] after the task
    was there before, stays healthy if it was, and keeps its count or has
    it reset to 0.  When every order-book request of "binance" is refused
    on three consecutive scans, its breaker opens but the exchange stays
    healthy with an error count of 0. *)
Theorem fetch_errors_not_counted :
  (forall health breakers exchangeId exchange symbol now tend client id h',
     snd (fst (fetch_price_task health breakers exchangeId exchange symbol now tend client)) !! id = Some h' ->
     exists h, health !! id = Some h /\ (healthy h = true -> healthy h' = true) /\
       (errorCount h' = errorCount h \/ errorCount h' = 0%Z)) /\
  fst (fetch_scans health0 breakers0 "binance" binance "BTC/USDT"
         [(0, 3000, refused); (10000, 13000, refused); (20000, 23000, refused)]%Z) !! "binance"
    = Some (mkHealth true None 0 0) /\
  option_map cb_state
    (snd (fetch_scans health0 breakers0 "binance" binance "BTC/USDT"
            [(0, 3000, refused); (10000, 13000, refused); (20000, 23000, refused)]%Z) !! "binance")
    = Some OPEN.
Proof.
  split; [|split; vm_compute; reflexivity].
  intros health breakers exchangeId exchange symbol now tend client id h' H.
  unfold fetch_price_task in H.
  destruct (market_of exchange symbol) as [m|]; [|same_entry H].
  destruct (fetchOrderBook breakers (Some exchange) symbol 5 now tend client) as [r bs'] eqn:Hf.
  destruct r as [[ob|]|e].
  - destruct (bids ob) as [|[bb x1] r1]; [same_entry H|].
    destruct (asks ob) as [|[ba x2] r2]; [same_entry H|].
    destruct (Qle_bool bb 0 || Qle_bool ba 0 || Qle_bool ba bb); [same_entry H|].
    cbv beta iota zeta in H.
    destruct (health !! exchangeId) as [h0|] eqn:Hh0; [|same_entry H].
    destruct (healthy h0) eqn:Hhe; cbn [fst snd] in H; apply lookup_insert_Some in H as [[<- <-]|[_ H]];
      try same_entry H; exists h0; (split; [exact Hh0|]); simpl; split; auto.
  - same_entry H.
  - exfalso. apply (fetchOrderBook_never_throws breakers (Some exchange) symbol 5 now tend client e).
    rewrite Hf. reflexivity.
Qed.

(* ================================================================== *)
(** * Further properties of the code *)

Lemma enhanceError_family e : is_arbitrage_error (enhanceError e) = true.
Proof. unfold enhanceError. split_ifs; simpl; auto. Qed.

(** [enhanceError] always returns an error of the [ArbitrageError]
    family; enhancing twice is enhancing once; and the new message ends
    with the original one. *)
Theorem enhanceError_normalises e :
  is_arbitrage_error (enhanceError e) = true /\
  enhanceError (enhanceError e) = enhanceError e /\
  exists prefix, err_message (enhanceError e) = (prefix ++ err_message e)%string.
Proof.
  split; [apply enhanceError_family|]. split.
  - unfold enhanceError at 1. rewrite enhanceError_family. reflexivity.
  - unfold enhanceError. split_ifs; cbn [err_message]; first [exists ""; reflexivity | eexists; reflexivity].
Qed.

Lemma upper_word_cons c r : upper_word (String c r) = is_upper c && (String.eqb r "" || upper_word r).
Proof. destruct r; simpl; [destruct (is_upper c)|]; reflexivity. Qed.

Lemma symbol_match_spec seen s :
  symbol_match seen s = true <->
  exists a b, ((a = "" /\ seen = true) \/ upper_word a = true) /\ upper_word b = true /\ s = (a ++ "/" ++ b)%string.
Proof.
  revert seen. induction s as [|c rest IH]; intros seen; simpl.
  - split; [discriminate|]. intros (a & b & _ & _ & H). destruct a; discriminate.
  - destruct (Ascii.eqb_spec c "/"%char) as [->|Hc].
    + split.
      * intros H. apply andb_true_iff in H as [Hs Hr]. exists "", rest. auto.
      * intros (a & b & [[-> ->]|Ha] & Hb & Hs).
        -- simpl in Hs. inversion Hs; subst. simpl. exact Hb.
        -- destruct a as [|c' a']; [discriminate|]. simpl in Hs. inversion Hs; subst.
           rewrite upper_word_cons in Ha. discriminate.
    + rewrite andb_true_iff, IH. split.
      * intros [Hu (a & b & Ha & Hb & ->)]. exists (String c a), b. split; [|split; [exact Hb|reflexivity]].
        right. rewrite upper_word_cons, Hu. simpl.
        destruct Ha as [[-> _]|Ha]; [reflexivity|]. rewrite Ha, orb_true_r. reflexivity.
      * intros (a & b & Ha & Hb & Hs). destruct a as [|c' a'].
        { simpl in Hs. inversion Hs; subst. congruence. }
        simpl in Hs. inversion Hs; subst.
        destruct Ha as [[Ha _]|Ha]; [discriminate|].
        rewrite upper_word_cons in Ha. apply andb_true_iff in Ha as [Hu Ha].
        split; [exact Hu|]. exists a', b. split; [|split; [exact Hb|reflexivity]].
        destruct (String.eqb_spec a' "") as [->|Hne]; [left; auto|right; exact Ha].
Qed.

(** [validators.isValidSymbol] accepts exactly the strings
    [BASE/QUOTE] where both parts are non-empty words of capital letters. *)
Theorem isValidSymbol_format s :
  isValidSymbol s = Ok tt <->
  exists base quote, upper_word base = true /\ upper_word quote = true /\ s = (base ++ "/" ++ quote)%string.
Proof.
  unfold isValidSymbol. destruct (String.eqb_spec s "") as [->|Hne].
  - split; [discriminate|]. intros (a & b & _ & _ & H). destruct a; discriminate.
  - destruct (symbol_match false s) eqn:Hm.
    + split; [intros _|reflexivity]. apply symbol_match_spec in Hm as (a & b & [[_ H]|Ha] & Hb & Hs);
        [discriminate|]. eauto.
    + split; [discriminate|]. intros (a & b & Ha & Hb & Hs).
      assert (symbol_match false s = true) by (apply symbol_match_spec; exists a, b; auto). congruence.
Qed.

(** [retryWithBackoff] makes at most four attempts, waiting 1000, 2000
    and 4000 ms between them: it returns the first success with the
    attempts and waits before it, and when all four attempts fail it
    throws the error of the fourth. *)
Theorem retryWithBackoff_schedule {A} (operation : nat -> result A) :
  (forall k v, k <= 3 -> (forall i, i < k -> exists e, operation i = Throw e) -> operation k = Ok v ->
     retryWithBackoff operation =
       (Ok v, firstn (2 * k + 1) [Invoke 0; Sleep 1000; Invoke 1; Sleep 2000; Invoke 2; Sleep 4000; Invoke 3])) /\
  (forall e, (forall i, i < 3 -> exists e', operation i = Throw e') -> operation 3 = Throw e ->
     retryWithBackoff operation =
       (Throw e, [Invoke 0; Sleep 1000; Invoke 1; Sleep 2000; Invoke 2; Sleep 4000; Invoke 3])).
Proof.
  unfold retryWithBackoff, withRetry. split.
  - intros k v Hk Hpre Hv.
    destruct k as [|[|[|[|k]]]]; [| | | |lia];
    repeat match goal with
    | H : forall i, i < ?n -> _ |- _ =>
        let i := fresh "i" in
        destruct (H 0 ltac:(lia)) as [? ?];
        try destruct (H 1 ltac:(lia)) as [? ?];
        try destruct (H 2 ltac:(lia)) as [? ?]; clear H
    end;
    cbn [retry_from]; repeat (match goal with H : operation _ = _ |- _ => rewrite H; cbn [retry_from] end);
    reflexivity.
  - intros e Hpre He.
    destruct (Hpre 0 ltac:(lia)) as [e0 H0]; destruct (Hpre 1 ltac:(lia)) as [e1 H1];
    destruct (Hpre 2 ltac:(lia)) as [e2 H2].
    cbn [retry_from]. rewrite H0. cbn [retry_from]. rewrite H1. cbn [retry_from]. rewrite H2.
    cbn [retry_from]. rewrite He. reflexivity.
Qed.

(** From [CLOSED] with [c] failures below the threshold [T], [n] failing
    calls with [c + n <= T] are all let through and return their own
    errors; they leave the count at [c + n], and the breaker [OPEN]
    exactly when [c + n] reaches [T]. *)
Theorem breaker_consecutive_failures {A} (calls : list (Z * result A * Z)) b :
  cb_state b = CLOSED -> (failureCount b < failureThreshold b)%Z ->
  Forall (fun c => exists e, c.1.2 = Throw e) calls ->
  (failureCount b + Z.of_nat (length calls) <= failureThreshold b)%Z ->
  map fst (cb_execute_seq b calls).1 = map (fun c => c.1.2) calls /\
  Forall (fun o => o.2 = true) (cb_execute_seq b calls).1 /\
  failureCount (cb_execute_seq b calls).2 = (failureCount b + Z.of_nat (length calls))%Z /\
  cb_state (cb_execute_seq b calls).2 =
    (if Z.ltb (failureCount b + Z.of_nat (length calls)) (failureThreshold b) then CLOSED else OPEN).
Proof.
  revert b. induction calls as [|[[now outcome] tend] cs IH]; intros b Hs Hlt Hf Hle.
  - simpl. rewrite Z.add_0_r, Hs. destruct (Z.ltb_spec (failureCount b) (failureThreshold b)); [|lia].
    repeat split; auto.
  - inversion Hf as [|? ? [e He] Hf']; subst. simpl in He; subst outcome.
    cbn [cb_execute_seq]. unfold cb_execute, cb_enter. rewrite Hs.
    cbn [length] in Hle |- *.
    destruct cs as [|c cs'].
    + cbn. unfold onFailure. cbn.
      destruct (Z.leb_spec (failureThreshold b) (failureCount b + 1));
      match goal with |- context [(?x <? ?y)%Z] => destruct (Z.ltb_spec x y) end;
      cbn; try lia; repeat split; auto; lia.
    + assert (Hfb : failureCount (onFailure tend b) = (failureCount b + 1)%Z) by
        (unfold onFailure; cbn; destruct (_ <=? _)%Z; reflexivity).
      assert (Htb : failureThreshold (onFailure tend b) = failureThreshold b) by
        (unfold onFailure; cbn; destruct (_ <=? _)%Z; reflexivity).
      assert (Hsb : cb_state (onFailure tend b) = CLOSED).
      { unfold onFailure. cbn. cbn [length] in Hle.
        destruct (Z.leb_spec (failureThreshold b) (failureCount b + 1)); [lia|]. exact Hs. }
      destruct (IH (onFailure tend b) Hsb) as (H1 & H2 & H3 & H4).
      { rewrite Hfb, Htb. cbn [length] in Hle. lia. }
      { exact Hf'. }
      { rewrite Hfb, Htb. cbn [length] in Hle |- *. lia. }
      destruct (cb_execute_seq (onFailure tend b) (c :: cs')) as [rs b2] eqn:Hseq.
      cbn [fst snd map] in *. rewrite Hfb, Htb in *.
      split; [f_equal; exact H1|]. split; [constructor; auto|].
      split; [rewrite H3; lia|]. rewrite H4.
      replace (failureCount b + 1 + Z.of_nat (length (c :: cs')))%Z
        with (failureCount b + Z.of_nat (S (length (c :: cs'))))%Z by lia.
      reflexivity.
Qed.


(** [monitorExchangeHealth] keeps the keys of [exchangeHealth]; afterwards
    an exchange is healthy exactly when its last successful scan is at
    most 300000 ms old; the time of that scan and the last error are
    kept, and the error count is reset only for an exchange that turns
    healthy again. *)
Theorem monitor_health_by_recency now health id :
  (monitorExchangeHealth now health !! id = None <-> health !! id = None) /\
  forall h, health !! id = Some h ->
    exists h', monitorExchangeHealth now health !! id = Some h' /\
      healthy h' = Z.leb (now - lastSuccessfulScan h) 300000 /\
      lastSuccessfulScan h' = lastSuccessfulScan h /\ lastError h' = lastError h /\
      errorCount h' = (if negb (healthy h) && healthy h' then 0%Z else errorCount h).
Proof.
  unfold monitorExchangeHealth. rewrite lookup_fmap. split.
  - destruct (health !! id); simpl; split; intros H; congruence.
  - intros h Hh. rewrite Hh. simpl. eexists. split; [reflexivity|].
    unfold monitor_entry.
    destruct (healthy h) eqn:Hy;
    destruct (Z.ltb_spec 300000 (now - lastSuccessfulScan h));
    destruct (Z.leb_spec (now - lastSuccessfulScan h) 300000); try lia; simpl; rewrite ?Hy;
    repeat split; auto.
Qed.

(** [cleanupStaleOperations] keeps exactly the entries of
    [activeArbitrageOps] that are at most 300000 ms old, with their times. *)
Theorem cleanup_keeps_recent now ops key t :
  cleanupStaleOperations now ops !! key = Some t <-> ops !! key = Some t /\ (now - t <= 300000)%Z.
Proof.
  unfold cleanupStaleOperations. rewrite map_lookup_filter_Some. simpl. split; intros [H1 H2]; split; auto; lia.
Qed.

Lemma in_js_sort {A} (cmp : A -> A -> Q) l z : In z (js_sort cmp l) <-> In z l.
Proof.
  induction l as [|x xs IH]; simpl; [tauto|]. rewrite in_insert_by, IH.
  split; intros [H|H]; auto.
Qed.

Lemma insert_by_nonempty {A} (cmp : A -> A -> Q) x l : insert_by cmp x l <> [].
Proof. destruct l; simpl; [discriminate|]. destruct (Qle_bool _ _); discriminate. Qed.

(** The heads of the two sorted arrays are quotes of the input. *)
Lemma detector_heads pd :
  pd <> [] ->
  exists hb r1 la r2, by_bid_desc pd = hb :: r1 /\ by_ask_asc (by_bid_desc pd) = la :: r2 /\ In hb pd /\ In la pd.
Proof.
  intros Hne. destruct pd as [|p ps]; [congruence|].
  destruct (by_bid_desc (p :: ps)) as [|hb r1] eqn:Hb.
  { unfold by_bid_desc in Hb. simpl in Hb. exfalso. exact (insert_by_nonempty _ _ _ Hb). }
  destruct (by_ask_asc (hb :: r1)) as [|la r2] eqn:Ha.
  { unfold by_ask_asc in Ha. simpl in Ha. exfalso. exact (insert_by_nonempty _ _ _ Ha). }
  exists hb, r1, la, r2. split; [reflexivity|]. split; [reflexivity|].
  split.
  - apply (in_js_sort (fun a b => (bestBid b - bestBid a)%Q)). fold (by_bid_desc (p :: ps)). rewrite Hb. left. reflexivity.
  - apply (in_js_sort (fun a b => (bestBid b - bestBid a)%Q)). fold (by_bid_desc (p :: ps)). rewrite Hb.
    apply (in_js_sort (fun a b => (bestAsk a - bestAsk b)%Q)). fold (by_ask_asc (hb :: r1)). rewrite Ha. left. reflexivity.
Qed.

Lemma detector_nonempty_ok cfg ops pd symbol now :
  pd <> [] -> exists effs ops', findAndExecuteArbitrageOpportunity cfg ops pd symbol now = Ok (effs, ops').
Proof.
  intros Hne. destruct (detector_heads pd Hne) as (hb & r1 & la & r2 & Hb & Ha & _ & _).
  unfold findAndExecuteArbitrageOpportunity. rewrite Hb. rewrite Hb in Ha. rewrite Ha.
  split_ifs; eauto. destruct (admit_dispatch _ _ _ _) as [[|] ops1]; eauto.
Qed.

(** A run of [findAndExecuteArbitrageOpportunity] that returns leaves
    [activeArbitrageOps] unchanged, or adds one new key, set to the
    current time, and starts the execution under it; after that addition
    the map holds at most [MAX_CONCURRENT_TRADES] entries. *)
Theorem detector_ops_growth cfg ops priceData symbol now effs ops' :
  findAndExecuteArbitrageOpportunity cfg ops priceData symbol now = Ok (effs, ops') ->
  ops' = ops \/
  exists key o, ops !! key = None /\ ops' = <[key := now]> ops /\
    (Z.of_nat (size ops') <= MAX_CONCURRENT_TRADES cfg)%Z /\ effs = [RecordOpportunity o; StartExecution key o].
Proof.
  intros H.
  destruct (findAndExecute_cases cfg ops priceData symbol now effs ops' H)
    as [[_ ->]|(hb & la & r1 & r2 & key & _ & _ & _ & _ & _ & _ & _ & o & _ & Heff)]; [left; reflexivity|].
  destruct Heff as [[-> Hadm]|[-> Hadm]]; unfold admit_dispatch in Hadm.
  - destruct (ops !! key) eqn:Hk; simpl in Hadm; [discriminate|].
    destruct (Z.ltb_spec (Z.of_nat (size ops)) (MAX_CONCURRENT_TRADES cfg)); [|discriminate].
    inversion Hadm; subst. right. exists key, o. split; [exact Hk|]. split; [reflexivity|].
    split; [|reflexivity]. rewrite map_size_insert_None by assumption. lia.
  - destruct (negb _ && _); inversion Hadm; auto.
Qed.

Lemma detector_ops_growth_witness :
  exists effs ops',
    findAndExecuteArbitrageOpportunity scenario_cfg ∅ scenario_A_quotes "BTC/USDT" 0 = Ok (effs, ops') /\
    (ops' = ∅ \/
     exists key o, (∅ : gmap string Z) !! key = None /\ ops' = <[key := 0%Z]> ∅ /\
       (Z.of_nat (size ops') <= MAX_CONCURRENT_TRADES scenario_cfg)%Z /\
       effs = [RecordOpportunity o; StartExecution key o]).
Proof.
  do 2 eexists. split; [vm_compute; reflexivity|].
  apply (detector_ops_growth scenario_cfg ∅ scenario_A_quotes "BTC/USDT" 0).
  vm_compute. reflexivity.
Defined.

(** [findAndExecuteArbitrageOpportunity] on an empty array throws an
    [UNKNOWN_ERROR] of the [ArbitrageError] family; on quotes that all come
    from one exchange (one quote in particular) it returns without effects. *)
Theorem detector_degenerate_inputs cfg ops symbol now :
  (exists e, findAndExecuteArbitrageOpportunity cfg ops [] symbol now = Throw e /\
     is_arbitrage_error e = true /\ err_code e = "UNKNOWN_ERROR") /\
  (forall priceData x, priceData <> [] -> Forall (fun p => pd_exchange p = x) priceData ->
     findAndExecuteArbitrageOpportunity cfg ops priceData symbol now = Ok ([], ops)).
Proof.
  split.
  - eexists. split; [reflexivity|]. vm_compute. split; reflexivity.
  - intros pd x Hne Hall. destruct (detector_heads pd Hne) as (hb & r1 & la & r2 & Hb & Ha & Hhb & Hla).
    unfold findAndExecuteArbitrageOpportunity. rewrite Hb. rewrite Hb in Ha. rewrite Ha.
    rewrite List.Forall_forall in Hall. rewrite (Hall hb Hhb), (Hall la Hla), String.eqb_refl. reflexivity.
Qed.

(** [scanForArbitrageOpportunities] throws exactly when fewer than two
    exchanges are given, with [INSUFFICIENT_EXCHANGES]; it scans only when
    fewer than [MAX_CONCURRENT_TRADES] operations are active, on at least
    two exchanges, each a given one whose health entry is healthy. *)
Theorem scan_targets_guard cfg ops health exchanges :
  (length exchanges < 2 -> scan_targets cfg ops health exchanges = Throw (insufficient_exchanges (length exchanges))) /\
  (2 <= length exchanges -> forall e, scan_targets cfg ops health exchanges <> Throw e) /\
  (forall hs, scan_targets cfg ops health exchanges = Ok (Some hs) ->
     (Z.of_nat (size ops) < MAX_CONCURRENT_TRADES cfg)%Z /\ 2 <= length hs /\
     forall id ex, In (id, ex) hs -> In (id, ex) exchanges /\ exists h, health !! id = Some h /\ healthy h = true).
Proof.
  unfold scan_targets. split; [|split].
  - intros H. destruct (Nat.ltb_spec (length exchanges) 2); [|lia]. reflexivity.
  - intros H e. destruct (Nat.ltb_spec (length exchanges) 2); [lia|].
    split_ifs; discriminate.
  - intros hs. destruct (Nat.ltb_spec (length exchanges) 2); [discriminate|].
    destruct (Z.leb_spec (MAX_CONCURRENT_TRADES cfg) (Z.of_nat (size ops))); [discriminate|].
    destruct (Nat.ltb_spec (length (healthy_exchanges health exchanges)) 2); [discriminate|].
    intros Hs; inversion Hs; subst. split; [lia|]. split; [assumption|].
    intros id ex Hin. unfold healthy_exchanges in Hin. apply filter_In in Hin as [Hin Hh].
    split; [exact Hin|]. destruct (health !! id) as [h|]; [|discriminate]. eauto.
Qed.

Lemma exchange_ok_some ex : ex_id ex <> "" -> exchange_ok (Some ex) = Some ex.
Proof. intros H. unfold exchange_ok. destruct (String.eqb_spec (ex_id ex) ""); congruence. Qed.

Lemma exchange_ok_same exchange ex : exchange_ok exchange = Some ex -> exchange = Some ex.
Proof. unfold exchange_ok. destruct exchange as [e|]; [|discriminate]. destruct (String.eqb _ _); congruence. Qed.

(** Each exchange operation changes at most the breaker of its own exchange. *)
Lemma fetchOrderBook_breakers breakers exchange symbol limit now tend client :
  snd (fetchOrderBook breakers exchange symbol limit now tend client) = breakers \/
  exists ex cb', exchange = Some ex /\
    snd (fetchOrderBook breakers exchange symbol limit now tend client) = <[ex_id ex := cb']> breakers.
Proof.
  unfold fetchOrderBook.
  destruct (fetchOrderBook_try breakers exchange symbol limit now tend client) as [r bs] eqn:H.
  assert (bs = breakers \/ exists ex cb', exchange = Some ex /\ bs = <[ex_id ex := cb']> breakers) as Hbs.
  { unfold fetchOrderBook_try in H. destruct (isValidSymbol symbol); [|inversion H; auto].
    destruct (Qle_bool limit 0 || negb (Qle_bool limit 100)); [inversion H; auto|].
    destruct (exchange_ok exchange) as [ex|] eqn:Hex; [|inversion H; auto].
    destruct (market_of ex symbol); [|inversion H; auto].
    destruct (breakers !! ex_id ex) as [cb|]; [|inversion H; auto].
    match type of H with context [cb_execute ?a ?b ?c ?d] => destruct (cb_execute a b c d) as [[r' x] cb'] end.
    inversion H; subst. right. exists ex, cb'. split; [apply exchange_ok_same; exact Hex|reflexivity]. }
  destruct r; exact Hbs.
Qed.

Lemma fetchOrderBook_local breakers ex symbol limit now tend client k :
  k <> ex_id ex -> snd (fetchOrderBook breakers (Some ex) symbol limit now tend client) !! k = breakers !! k.
Proof.
  intros Hk. destruct (fetchOrderBook_breakers breakers (Some ex) symbol limit now tend client)
    as [->|(ex' & cb' & Hex & ->)]; [reflexivity|].
  inversion Hex; subst. apply lookup_insert_ne. congruence.
Qed.

(** The quotes produced by the price-fetch task are valid ones. *)
Lemma fetch_price_task_valid health breakers exchangeId exchange symbol now tend client pd :
  fst (fst (fetch_price_task health breakers exchangeId exchange symbol now tend client)) = Some pd ->
  pd_exchange pd = exchangeId /\ (0 < bestBid pd)%Q /\ (bestBid pd < bestAsk pd)%Q.
Proof.
  unfold fetch_price_task.
  destruct (market_of exchange symbol) as [m|]; [|discriminate].
  destruct (fetchOrderBook breakers (Some exchange) symbol 5 now tend client) as [r bs'].
  destruct r as [[ob|]|e]; [|discriminate|discriminate].
  destruct (bids ob) as [|[bb x1] r1]; [discriminate|].
  destruct (asks ob) as [|[ba x2] r2]; [discriminate|].
  destruct (Qle_bool_reflect bb 0), (Qle_bool_reflect ba 0), (Qle_bool_reflect ba bb); simpl; try discriminate.
  intros H. inversion H; subst. simpl. split; [reflexivity|]. split; lra.
Qed.

(** A price-fetch task of [scanPairAcrossExchanges] yields only quotes of
    its own exchange with [0 < bestBid < bestAsk]; it changes no health
    entry but its own and no breaker but its exchange's; and for an
    exchange that does not list the pair it yields nothing and changes
    nothing. *)
Theorem fetch_price_task_output health breakers exchangeId exchange symbol now tend client :
  let '(r, health', breakers') := fetch_price_task health breakers exchangeId exchange symbol now tend client in
  (forall pd, r = Some pd -> pd_exchange pd = exchangeId /\ (0 < bestBid pd)%Q /\ (bestBid pd < bestAsk pd)%Q) /\
  (forall k, k <> exchangeId -> health' !! k = health !! k) /\
  (forall k, k <> ex_id exchange -> breakers' !! k = breakers !! k) /\
  (market_of exchange symbol = None -> r = None /\ health' = health /\ breakers' = breakers).
Proof.
  pose proof (fetch_price_task_valid health breakers exchangeId exchange symbol now tend client) as Hv.
  unfold fetch_price_task in *.
  destruct (market_of exchange symbol) as [m|]; [|split; [intros pd H; discriminate|auto]].
  pose proof (fetchOrderBook_local breakers exchange symbol 5 now tend client) as Hloc.
  destruct (fetchOrderBook breakers (Some exchange) symbol 5 now tend client) as [r bs'].
  cbn [snd] in Hloc.
  destruct r as [[ob|]|e].
  - destruct (bids ob) as [|[bb x1] r1]; [repeat split; auto; discriminate|].
    destruct (asks ob) as [|[ba x2] r2]; [repeat split; auto; discriminate|].
    destruct (Qle_bool bb 0 || Qle_bool ba 0 || Qle_bool ba bb); [repeat split; auto; discriminate|].
    split; [exact Hv|]. split; [|split; [exact Hloc|discriminate]].
    intros k Hk. destruct (health !! exchangeId) as [h|]; [|reflexivity].
    destruct (healthy h); apply lookup_insert_ne; congruence.
  - repeat split; auto; discriminate.
  - split; [intros pd H; discriminate|]. split; [|split; [exact Hloc|discriminate]].
    intros k Hk. destruct (health !! exchangeId) as [h|]; [|reflexivity]. apply lookup_insert_ne; congruence.
Qed.

Lemma fetch_all_valid health breakers symbol tasks pd :
  In pd (fst (fst (fetch_all health breakers symbol tasks))) -> (0 < bestBid pd)%Q /\ (bestBid pd < bestAsk pd)%Q.
Proof.
  revert health breakers. induction tasks as [|[[[[id ex] t0] t1] cl] ts IH]; intros health breakers; simpl; [tauto|].
  pose proof (fetch_price_task_valid health breakers id ex symbol t0 t1 cl) as Hv.
  destruct (fetch_price_task health breakers id ex symbol t0 t1 cl) as [[r h1] b1].
  specialize (IH h1 b1). destruct (fetch_all h1 b1 symbol ts) as [[pds h2] b2]. simpl in *.
  destruct r as [p|]; simpl; [|exact IH].
  intros [<-|H]; [destruct (Hv p eq_refl) as (_ & ? & ?); auto|auto].
Qed.

Lemma isValidSymbol_error_kept symbol e : isValidSymbol symbol = Throw e -> enhanceError e = e.
Proof.
  unfold isValidSymbol. destruct (String.eqb symbol ""); [|destruct (symbol_match false symbol)];
    intros He; inversion He; reflexivity.
Qed.

(** [scanPairAcrossExchanges] counts an error in [scanErrors] only for an
    invalid symbol: then it rethrows the validation error, raises the
    symbol's count by one and changes nothing else.  With a valid symbol
    it never throws, keeps [scanErrors], and every opportunity it records
    has [0 < buyPrice < sellPrice], with a positive [potentialProfit] when
    [TRADE_AMOUNT] is positive. *)
Theorem scanPair_error_accounting cfg st symbol now tasks :
  (forall e, isValidSymbol symbol = Throw e ->
     scanPairAcrossExchanges cfg st symbol now tasks =
       (Throw e, mkScanState (exchangeHealth st) (exchangeCircuitBreakers st) (activeArbitrageOps st)
                   (<[symbol := ((match scanErrors st !! symbol with Some c => c | None => 0 end) + 1)%Z]>
                      (scanErrors st)))) /\
  (isValidSymbol symbol = Ok tt ->
     exists effs st', scanPairAcrossExchanges cfg st symbol now tasks = (Ok effs, st') /\
       scanErrors st' = scanErrors st /\
       forall o, In (RecordOpportunity o) effs ->
         (0 < buyPrice o)%Q /\ (buyPrice o < sellPrice o)%Q /\
         ((0 < TRADE_AMOUNT cfg)%Q -> (0 < potentialProfit o)%Q)).
Proof.
  split.
  - intros e He. unfold scanPairAcrossExchanges, scanPair_try. rewrite He.
    cbv beta iota zeta. rewrite (isValidSymbol_error_kept symbol e He). reflexivity.
  - intros Hv. unfold scanPairAcrossExchanges, scanPair_try. rewrite Hv.
    pose proof (fetch_all_valid (exchangeHealth st) (exchangeCircuitBreakers st) symbol tasks) as Hq.
    destruct (fetch_all (exchangeHealth st) (exchangeCircuitBreakers st) symbol tasks) as [[pd h] b].
    cbn [fst] in Hq.
    destruct (Nat.ltb_spec (length pd) 2).
    + do 2 eexists. split; [reflexivity|]. split; [reflexivity|]. intros o [].
    + destruct (detector_nonempty_ok cfg (activeArbitrageOps st) pd symbol now) as (effs & ops' & Hd).
      { destruct pd; simpl in *; [lia|discriminate]. }
      rewrite Hd. do 2 eexists. split; [reflexivity|]. split; [reflexivity|].
      intros o Ho.
      destruct (findAndExecute_cases cfg _ _ _ _ _ _ Hd)
        as [[-> _]|(hb & la & r1 & r2 & key & Hb & Ha & _ & _ & Hdiff & _ & _ & o0 & Ho0 & Heff)]; [destruct Ho|].
      assert (o = o0) as ->.
      { apply (effs_opportunity o o0 key effs); [destruct Heff as [[? _]|[? _]]; auto|left; exact Ho]. }
      subst o0. cbn [buyPrice sellPrice potentialProfit].
      assert (Hla : In la pd).
      { apply (in_js_sort (fun a b => (bestBid b - bestBid a)%Q)). fold (by_bid_desc pd).
        apply (in_js_sort (fun a b => (bestAsk a - bestAsk b)%Q)). fold (by_ask_asc (by_bid_desc pd)).
        rewrite Ha. left; reflexivity. }
      destruct (Hq la Hla) as [Hb0 Hba].
      split; [lra|]. split; [lra|]. intros HT.
      apply Qmult_lt_0_compat; [lra|]. unfold Qdiv. apply Qmult_lt_0_compat; [exact HT|].
      apply Qinv_lt_0_compat. lra.
Qed.

Lemma Qle_bool_false a b : (b < a)%Q -> Qle_bool a b = false.
Proof. intros H. destruct (Qle_bool_reflect a b); [lra|reflexivity]. Qed.


Lemma cb_execute_blocked {A} b now (outcome : result A) tend :
  cb_state b = OPEN -> (elapsed_since_failure now b < resetTimeout b)%Z ->
  cb_execute b now outcome tend = (Throw breaker_open_error, false, b).
Proof.
  intros Hs He. unfold cb_execute, cb_enter. rewrite Hs.
  destruct (Z.leb_spec (resetTimeout b) (elapsed_since_failure now b)); [lia|reflexivity].
Qed.



(** While an exchange's breaker is [OPEN] and its reset timeout has not
    elapsed, [fetchTicker], [fetchOrderBook], [fetchBalance] and, with trading enabled,
    [executeBuy] / [executeSell] return [null] whatever the client does,
    and leave the breakers unchanged. *)
Theorem open_breaker_fails_fast breakers ex cb now :
  breakers !! ex_id ex = Some cb -> cb_state cb = OPEN -> (elapsed_since_failure now cb < resetTimeout cb)%Z ->
  (forall symbol tend client,
     fetchTicker breakers (Some ex) symbol now tend client = (Ok None, breakers)) /\
  (forall symbol limit tend client,
     fetchOrderBook breakers (Some ex) symbol limit now tend client = (Ok None, breakers)) /\
  (forall B tend (client : nat -> result (option B)),
     fetchBalance breakers (Some ex) now tend client = (Ok None, breakers)) /\
  (forall side symbol amount tend client,
     execute_order side breakers true (Some ex) symbol amount now tend client = (Ok None, breakers)).
Proof.
  intros Hcb Hs He. split; [|split; [|split]].
  - intros symbol tend client. unfold fetchTicker, fetchTicker_try.
    destruct (isValidSymbol symbol); [|reflexivity].
    destruct (exchange_ok (Some ex)) as [ex'|] eqn:Hex; [|reflexivity].
    apply exchange_ok_same in Hex. inversion Hex; subst ex'.
    destruct (market_of ex symbol); [|reflexivity].
    rewrite Hcb, cb_execute_blocked by assumption. cbv beta iota zeta.
    rewrite insert_id by assumption. reflexivity.
  - intros symbol limit tend client. unfold fetchOrderBook, fetchOrderBook_try.
    destruct (isValidSymbol symbol); [|reflexivity].
    destruct (Qle_bool limit 0 || negb (Qle_bool limit 100)); [reflexivity|].
    destruct (exchange_ok (Some ex)) as [ex'|] eqn:Hex; [|reflexivity].
    apply exchange_ok_same in Hex. inversion Hex; subst ex'.
    destruct (market_of ex symbol); [|reflexivity].
    rewrite Hcb, cb_execute_blocked by assumption. cbv beta iota zeta.
    rewrite insert_id by assumption. reflexivity.
  - intros B tend client. unfold fetchBalance, fetchBalance_try.
    destruct (exchange_ok (Some ex)) as [ex'|] eqn:Hex; [|reflexivity].
    apply exchange_ok_same in Hex. inversion Hex; subst ex'.
    rewrite Hcb, cb_execute_blocked by assumption. cbv beta iota zeta.
    rewrite insert_id by assumption. reflexivity.
  - intros side symbol amount tend client. unfold execute_order, execute_order_try.
    destruct (isValidSymbol symbol); [|reflexivity].
    destruct (isValidAmount amount); [|reflexivity].
    destruct (exchange_ok (Some ex)) as [ex'|] eqn:Hex; [|reflexivity].
    apply exchange_ok_same in Hex. inversion Hex; subst ex'. cbn [negb].
    destruct (market_of ex symbol) as [m|]; [|reflexivity].
    destruct (active m); cbn [negb]; [|reflexivity].
    rewrite Hcb, cb_execute_blocked by assumption. cbv beta iota zeta.
    rewrite insert_id by assumption. reflexivity.
Qed.

Lemma open_breaker_fails_fast_witness :
  (forall symbol tend client,
     fetchTicker open_breakers (Some binance) symbol 2000 tend client = (Ok None, open_breakers)) /\
  (forall symbol limit tend client,
     fetchOrderBook open_breakers (Some binance) symbol limit 2000 tend client = (Ok None, open_breakers)) /\
  (forall B tend (client : nat -> result (option B)),
     fetchBalance open_breakers (Some binance) 2000 tend client = (Ok None, open_breakers)) /\
  (forall side symbol amount tend client,
     execute_order side open_breakers true (Some binance) symbol amount 2000 tend client = (Ok None, open_breakers)).
Proof.
  apply (open_breaker_fails_fast open_breakers binance (mkCB OPEN 3 (Some 1000%Z) 3 30000) 2000).
  - vm_compute. reflexivity.
  - reflexivity.
  - vm_compute. reflexivity.
Defined.

Lemma execute_order_sim side breakers ex symbol amount now tend client :
  isValidSymbol symbol = Ok tt -> (0 < amount)%Q -> ex_id ex <> "" ->
  execute_order side breakers false (Some ex) symbol amount now tend client =
    (Ok (Some (mkOrder (Some ("sim_" ++ side ++ "_" ++ pretty now)%string))), breakers).
Proof.
  intros Hs Ha Hid. unfold execute_order, execute_order_try, isValidAmount.
  rewrite Hs, (Qle_bool_false amount 0 Ha), (exchange_ok_some ex Hid). reflexivity.
Qed.

(** With trading disabled and valid arguments, [executeBuy] and
    [executeSell] return the simulated orders [sim_buy_<now>] and
    [sim_sell_<now>], whatever the client does, and leave the breakers
    unchanged. *)
Theorem simulation_mode_orders breakers ex symbol amount now tend client_buy client_sell :
  isValidSymbol symbol = Ok tt -> (0 < amount)%Q -> ex_id ex <> "" ->
  executeBuy breakers false (Some ex) symbol amount now tend client_buy =
    (Ok (Some (mkOrder (Some ("sim_buy_" ++ pretty now)%string))), breakers) /\
  executeSell breakers false (Some ex) symbol amount now tend client_sell =
    (Ok (Some (mkOrder (Some ("sim_sell_" ++ pretty now)%string))), breakers).
Proof.
  intros Hs Ha Hid. unfold executeBuy, executeSell.
  rewrite !execute_order_sim by assumption. split; reflexivity.
Qed.

Lemma simulation_mode_orders_witness :
  executeBuy breakers0 false (Some binance) "BTC/USDT" 1 5000 5000 no_orders =
    (Ok (Some (mkOrder (Some ("sim_buy_" ++ pretty 5000%Z)%string))), breakers0) /\
  executeSell breakers0 false (Some binance) "BTC/USDT" 1 5000 5000 no_orders =
    (Ok (Some (mkOrder (Some ("sim_sell_" ++ pretty 5000%Z)%string))), breakers0).
Proof.
  apply (simulation_mode_orders breakers0 binance "BTC/USDT" 1 5000 5000 no_orders no_orders).
  - vm_compute. reflexivity.
  - lra.
  - discriminate.
Defined.

Lemma leg_withRetry_first_ok leg v :
  leg 0 = Ok v -> leg_withRetry leg = (Ok v, [Invoke 0]).
Proof. intros H. unfold leg_withRetry, withRetry. simpl. rewrite H. reflexivity. Qed.

Lemma exchange_id_ok_some id : id <> "" -> exchange_id_ok (Some id) = Some id.
Proof. intros H. unfold exchange_id_ok. destruct (String.eqb_spec id ""); congruence. Qed.

Lemma Qdiv_pos a b : (0 < a)%Q -> (0 < b)%Q -> (0 < a / b)%Q.
Proof. intros Ha Hb. unfold Qdiv. apply Qmult_lt_0_compat; [exact Ha|]. apply Qinv_lt_0_compat. exact Hb. Qed.

Lemma arb_validate_ok buyEx sellEx symbol amount opp bid sid base :
  arb_validate buyEx sellEx symbol amount opp = Ok (bid, sid, base) ->
  (0 < amount)%Q /\ (0 < buyPrice opp)%Q /\ base = (amount / buyPrice opp)%Q.
Proof.
  unfold arb_validate. destruct (isValidSymbol symbol); [|discriminate].
  unfold isValidAmount. destruct (Qle_bool_reflect amount 0); [discriminate|].
  destruct (exchange_id_ok buyEx); [|discriminate]. destruct (exchange_id_ok sellEx); [|discriminate].
  destruct (Qle_bool_reflect (buyPrice opp) 0); [discriminate|].
  destruct (Qle_bool _ 0); [discriminate|]. intros H; inversion H; subst. split; [lra|]. split; [lra|reflexivity].
Qed.

Lemma arb_validate_error_class buyEx sellEx symbol amount opp e :
  arb_validate buyEx sellEx symbol amount opp = Throw e -> is_arbitrage_error e = true.
Proof.
  unfold arb_validate, isValidSymbol, isValidAmount.
  destruct (String.eqb symbol ""); [intros H; inversion H; reflexivity|].
  destruct (symbol_match false symbol); [|intros H; inversion H; reflexivity].
  destruct (Qle_bool amount 0); [intros H; inversion H; reflexivity|].
  destruct (exchange_id_ok buyEx); [|intros H; inversion H; reflexivity].
  destruct (exchange_id_ok sellEx); [|intros H; inversion H; reflexivity].
  destruct (Qle_bool (buyPrice opp) 0); [intros H; inversion H; reflexivity|].
  destruct (Qle_bool _ 0); intros H; inversion H; reflexivity.
Qed.

Lemma enhanceError_arbitrage e : is_arbitrage_error e = true -> enhanceError e = e.
Proof. intros H. unfold enhanceError. rewrite H. reflexivity. Qed.

Ltac no_trade_in H :=
  match type of H with
  | In _ (_ ++ _) => apply in_app_iff in H; destruct H as [H|H]; no_trade_in H
  | In _ (map (retry_to_exec _) _) => revert H; apply retry_to_exec_no_trade; intros ?; discriminate
  | In _ (_ :: _) => destruct H as [H|H]; [discriminate|no_trade_in H]
  | In _ [] => destruct H
  end.

(** With trading disabled, [executeArbitrage] on valid arguments, whose
    legs are [executeBuy] and [executeSell] on the base amount, succeeds on
    the first attempt of each leg and records one trade with the simulated
    order ids. *)
Theorem simulated_arbitrage_succeeds bex sex symbol amount opp breakers tb ts tend client_buy client_sell :
  isValidSymbol symbol = Ok tt -> (0 < amount)%Q -> ex_id bex <> "" -> ex_id sex <> "" -> (0 < buyPrice opp)%Q ->
  executeArbitrage (Some (ex_id bex)) (Some (ex_id sex)) symbol amount opp
    (fun i => fst (executeBuy breakers false (Some bex) symbol (amount / buyPrice opp) (tb i) tend client_buy))
    (fun i => fst (executeSell breakers false (Some sex) symbol (amount / buyPrice opp) (ts i) tend client_sell))
  = (Ok tt,
     [LogE LInfo ("Executing arbitrage trade for " ++ symbol)%string;
      LogE LInfo ("Executing buy order for " ++ symbol ++ " on " ++ ex_id bex)%string;
      BuyCall 0;
      LogE LInfo ("Executing sell order for " ++ symbol ++ " on " ++ ex_id sex)%string;
      SellCall 0;
      RecordTrade (mkTrade opp ("sim_buy_" ++ pretty (tb 0))%string ("sim_sell_" ++ pretty (ts 0))%string
                     (amount / buyPrice opp) amount);
      LogE LInfo "Successfully executed arbitrage"]).
Proof.
  intros Hs Ha Hb Hsx Hp.
  assert (Hbase : (0 < amount / buyPrice opp)%Q) by (apply Qdiv_pos; assumption).
  unfold executeArbitrage, executeArbitrage_body, arb_validate, isValidAmount.
  rewrite Hs, (Qle_bool_false amount 0 Ha), (exchange_id_ok_some _ Hb), (exchange_id_ok_some _ Hsx),
    (Qle_bool_false _ 0 Hp), (Qle_bool_false _ 0 Hbase).
  cbv beta iota zeta.
  rewrite (leg_withRetry_first_ok
             (fun i => fst (executeBuy breakers false (Some bex) symbol (amount / buyPrice opp) (tb i) tend client_buy))
             (Some (mkOrder (Some ("sim_buy_" ++ pretty (tb 0))%string))))
    by (unfold executeBuy; rewrite execute_order_sim by assumption; reflexivity).
  rewrite (leg_withRetry_first_ok
             (fun i => fst (executeSell breakers false (Some sex) symbol (amount / buyPrice opp) (ts i) tend client_sell))
             (Some (mkOrder (Some ("sim_sell_" ++ pretty (ts 0))%string))))
    by (unfold executeSell; rewrite execute_order_sim by assumption; reflexivity).
  reflexivity.
Qed.

(** When neither leg throws (as [executeBuy] and [executeSell] never
    do), [executeArbitrage] calls each leg at most once and never waits:
    its retries never happen. *)
Theorem legs_without_errors_never_retry buyEx sellEx symbol amount opp buy sell :
  (forall i, exists o, buy i = Ok o) -> (forall i, exists o, sell i = Ok o) ->
  (forall d, ~ In (Wait d) (snd (executeArbitrage buyEx sellEx symbol amount opp buy sell))) /\
  (forall i, In (BuyCall i) (snd (executeArbitrage buyEx sellEx symbol amount opp buy sell)) -> i = 0) /\
  (forall i, In (SellCall i) (snd (executeArbitrage buyEx sellEx symbol amount opp buy sell)) -> i = 0).
Proof.
  intros Hb Hs. destruct (Hb 0) as [ob Hb0]. destruct (Hs 0) as [os Hs0].
  unfold executeArbitrage, executeArbitrage_body.
  rewrite (leg_withRetry_first_ok buy ob Hb0), (leg_withRetry_first_ok sell os Hs0).
  destruct (arb_validate buyEx sellEx symbol amount opp) as [[[bid sid] base]|e];
    [destruct ob as [bo|]; [destruct os as [so|]|]|];
    cbn [fst snd map retry_to_exec app]; repeat split; intros ? H; cbn [In] in H;
    repeat (destruct H as [H|H]; [try discriminate; inversion H; reflexivity|]); destruct H.
Qed.

(** [executeArbitrage] succeeds only after recording exactly one trade,
    for the given opportunity, with quote amount [amount] and base amount
    [amount / buyPrice]; when it throws it has recorded no trade. *)
Theorem trade_recorded_iff_success buyEx sellEx symbol amount opp buy sell :
  (fst (executeArbitrage buyEx sellEx symbol amount opp buy sell) = Ok tt ->
     exists t pre post, snd (executeArbitrage buyEx sellEx symbol amount opp buy sell) = pre ++ RecordTrade t :: post /\
       (forall t', ~ In (RecordTrade t') pre /\ ~ In (RecordTrade t') post) /\
       trade_opportunity t = opp /\ quoteAmount t = amount /\ trade_baseAmount t = (amount / buyPrice opp)%Q /\
       (0 < amount)%Q /\ (0 < buyPrice opp)%Q) /\
  (forall e, fst (executeArbitrage buyEx sellEx symbol amount opp buy sell) = Throw e ->
     forall t, ~ In (RecordTrade t) (snd (executeArbitrage buyEx sellEx symbol amount opp buy sell))).
Proof.
  unfold executeArbitrage, executeArbitrage_body.
  destruct (arb_validate buyEx sellEx symbol amount opp) as [[[bid sid] base]|e] eqn:Hv.
  2: { cbn [fst snd app]. split; [discriminate|]. intros _ _ t H. no_trade_in H. }
  destruct (arb_validate_ok _ _ _ _ _ _ _ _ Hv) as (Ha & Hp & ->).
  destruct (leg_withRetry buy) as [rb trb].
  destruct rb as [[bo|]|e].
  - destruct (leg_withRetry sell) as [rs trs].
    destruct rs as [[so|]|e]; cbv beta iota zeta; cbn [fst snd].
    + split; [|intros e He; discriminate].
      intros _. do 3 eexists. split; [reflexivity|].
      split; [|repeat split; auto].
      intros t'. split; intros H; no_trade_in H.
    + split; [discriminate|]. intros _ _ t H. no_trade_in H.
    + split; [discriminate|]. intros _ _ t H. no_trade_in H.
  - cbv beta iota zeta; cbn [fst snd]. split; [discriminate|]. intros _ _ t H. no_trade_in H.
  - cbv beta iota zeta; cbn [fst snd]. split; [discriminate|]. intros _ _ t H. no_trade_in H.
Qed.

(** When the input checks of [executeArbitrage] fail, it calls neither
    leg: it logs the error once and rethrows it unchanged. *)
Theorem invalid_input_never_trades buyEx sellEx symbol amount opp buy sell e :
  arb_validate buyEx sellEx symbol amount opp = Throw e ->
  executeArbitrage buyEx sellEx symbol amount opp buy sell =
    (Throw e, [LogE LError ("Error executing arbitrage: " ++ err_message e)%string]).
Proof.
  intros H. unfold executeArbitrage, executeArbitrage_body. rewrite H. cbv beta iota zeta.
  rewrite (enhanceError_arbitrage e (arb_validate_error_class _ _ _ _ _ e H)). reflexivity.
Qed.

Lemma breaker_consecutive_failures_witness :
  map fst (cb_execute_seq (new_CircuitBreaker (Some 3%Z) (Some 30000%Z)) failing_calls).1
    = map (fun c => c.1.2) failing_calls /\
  Forall (fun o => o.2 = true) (cb_execute_seq (new_CircuitBreaker (Some 3%Z) (Some 30000%Z)) failing_calls).1 /\
  failureCount (cb_execute_seq (new_CircuitBreaker (Some 3%Z) (Some 30000%Z)) failing_calls).2
    = (failureCount (new_CircuitBreaker (Some 3%Z) (Some 30000%Z)) + Z.of_nat (length failing_calls))%Z /\
  cb_state (cb_execute_seq (new_CircuitBreaker (Some 3%Z) (Some 30000%Z)) failing_calls).2 =
    (if Z.ltb (failureCount (new_CircuitBreaker (Some 3%Z) (Some 30000%Z)) + Z.of_nat (length failing_calls))
              (failureThreshold (new_CircuitBreaker (Some 3%Z) (Some 30000%Z)))
     then CLOSED else OPEN).
Proof.
  apply (breaker_consecutive_failures failing_calls (new_CircuitBreaker (Some 3%Z) (Some 30000%Z))).
  - reflexivity.
  - vm_compute. reflexivity.
  - repeat constructor; eexists; reflexivity.
  - simpl. lia.
Defined.

Lemma legs_without_errors_never_retry_witness :
  (forall d, ~ In (Wait d) (snd (executeArbitrage (Some "binance") (Some "kraken") "BTC/USDT" 100 sample_opp
                                   order_b1 no_order))) /\
  (forall i, In (BuyCall i) (snd (executeArbitrage (Some "binance") (Some "kraken") "BTC/USDT" 100 sample_opp
                                    order_b1 no_order)) -> i = 0) /\
  (forall i, In (SellCall i) (snd (executeArbitrage (Some "binance") (Some "kraken") "BTC/USDT" 100 sample_opp
                                     order_b1 no_order)) -> i = 0).
Proof.
  apply (legs_without_errors_never_retry (Some "binance") (Some "kraken") "BTC/USDT" 100 sample_opp
           order_b1 no_order);
    intros i; eexists; reflexivity.
Defined.

Lemma simulated_arbitrage_succeeds_witness :
  executeArbitrage (Some (ex_id binance)) (Some (ex_id kraken)) "BTC/USDT" 100 sample_opp
    (fun i => fst (executeBuy breakers0 false (Some binance) "BTC/USDT" (100 / buyPrice sample_opp) 5000 5000 no_orders))
    (fun i => fst (executeSell breakers0 false (Some kraken) "BTC/USDT" (100 / buyPrice sample_opp) 5000 5000 no_orders))
  = (Ok tt,
     [LogE LInfo ("Executing arbitrage trade for " ++ "BTC/USDT")%string;
      LogE LInfo ("Executing buy order for " ++ "BTC/USDT" ++ " on " ++ ex_id binance)%string;
      BuyCall 0;
      LogE LInfo ("Executing sell order for " ++ "BTC/USDT" ++ " on " ++ ex_id kraken)%string;
      SellCall 0;
      RecordTrade (mkTrade sample_opp ("sim_buy_" ++ pretty 5000%Z)%string ("sim_sell_" ++ pretty 5000%Z)%string
                     (100 / buyPrice sample_opp) 100);
      LogE LInfo "Successfully executed arbitrage"]).
Proof.
  apply (simulated_arbitrage_succeeds binance kraken "BTC/USDT" 100 sample_opp breakers0
           (fun _ => 5000%Z) (fun _ => 5000%Z) 5000 no_orders no_orders).
  - vm_compute. reflexivity.
  - lra.
  - discriminate.
  - discriminate.
  - simpl. lra.
Defined.

Lemma invalid_input_never_trades_witness :
  arb_validate (Some "binance") (Some "kraken") "btc/usdt" 100 sample_opp = Throw bad_symbol_error /\
  executeArbitrage (Some "binance") (Some "kraken") "btc/usdt" 100 sample_opp no_orders no_orders =
    (Throw bad_symbol_error, [LogE LError ("Error executing arbitrage: " ++ err_message bad_symbol_error)%string]).
Proof.
  split; [vm_compute; reflexivity|].
  apply (invalid_input_never_trades (Some "binance") (Some "kraken") "btc/usdt" 100 sample_opp
           no_orders no_orders bad_symbol_error).
  vm_compute. reflexivity.
Defined.



